(** * amazon-ec2-instance-selector: the filter engine of pkg/selector/selector.go

    A shallow embedding of [selector.go] and the properties of its
    specification: location classification and resolution, filter dispatch
    ([executeFilters]), the paged candidate aggregation ([rawFilter]), and
    the result finalizer ([sortInstanceTypeInfo], [truncateResults]).

    Conventions of the embedding:
    - a Go pointer [*T] is an [option T] ([None] is [nil]), and a
      dereference of [nil] is a panic;
    - Go's [int] and [int64] are [Z] (the code does no arithmetic on them);
    - [float64] is the kernel's binary64 [float];
    - strings are byte strings ([string] of [ascii]);
    - a Go map is a [gmap]; the order in which a [range] statement visits
      it is a parameter ([MapOrder]), any permutation of the entries;
    - a Go function that may return an error, or panic, returns an [outcome];
    - the requests sent to the EC2 service are recorded in a trace of
      [event]s, and the service is the sequence of its answers ([pager]). *)

From Stdlib Require Import ZArith NArith String Ascii Lia PrimFloat.
From stdpp Require Import base option list gmap strings sorting.

Open Scope string_scope.
Open Scope list_scope.
Open Scope Z_scope.

(* ================================================================== *)
(** * Regular expressions (the fragment [regexp.MatchString] is used on) *)
(* ================================================================== *)

Module Regexp.

(** Syntax of the patterns of [selector.go]: anchors, literal bytes,
    byte ranges, concatenation, [?] and bounded repetition [{lo,hi}]. *)
Inductive regex : Type :=
| Eps                                (* the empty pattern *)
| Bol                                (* ^ : beginning of text *)
| Eol                                (* $ : end of text *)
| Chr (c : ascii)                    (* a literal byte *)
| Range (lo hi : ascii)              (* [lo-hi] *)
| Cat (r1 r2 : regex)                (* r1 r2 *)
| Opt (r : regex)                    (* (r)? *)
| Rep (lo hi : nat) (r : regex).     (* r{lo,hi} *)

(** A position of the matcher: whether it still stands at the beginning
    of the text, and the text that remains. *)
Definition pos : Type := bool * string.

Definition in_range (lo hi c : ascii) : bool :=
  ((N_of_ascii lo <=? N_of_ascii c) && (N_of_ascii c <=? N_of_ascii hi))%N.

(** [iter_run f lo hi p]: the positions reached from [p] by between [lo]
    and [hi] successive runs of [f]. *)
Fixpoint iter_run (f : pos → list pos) (lo hi : nat) (p : pos) : list pos :=
  match hi with
  | O => match lo with O => [p] | S _ => [] end
  | S hi' =>
      match lo with O => [p] | S _ => [] end
      ++ flat_map (iter_run f (Nat.pred lo) hi') (f p)
  end.

(** [run r p]: every position at which a match of [r] started at [p]
    can end. *)
Fixpoint run (r : regex) (p : pos) : list pos :=
  match r with
  | Eps => [p]
  | Bol => if p.1 then [p] else []
  | Eol => match p.2 with EmptyString => [p] | String _ _ => [] end
  | Chr c =>
      match p.2 with
      | String a s => if Ascii.eqb a c then [(false, s)] else []
      | EmptyString => []
      end
  | Range lo hi =>
      match p.2 with
      | String a s => if in_range lo hi a then [(false, s)] else []
      | EmptyString => []
      end
  | Cat r1 r2 => flat_map (run r2) (run r1 p)
  | Opt r1 => p :: run r1 p
  | Rep lo hi r1 => iter_run (run r1) lo hi p
  end.

Definition matches_at (r : regex) (p : pos) : bool :=
  match run r p with [] => false | _ :: _ => true end.

(** The unanchored search of [regexp.MatchString]: a match may start at
    any offset of the text; only offset 0 is the beginning of the text.
    (The patterns of selector.go are constants that compile, so the error
    result of [regexp.MatchString] is always nil.) *)
Fixpoint search (r : regex) (bot : bool) (s : string) : bool :=
  matches_at r (bot, s)
  || match s with
     | EmptyString => false
     | String _ s' => search r false s'
     end.

Definition MatchString (r : regex) (s : string) : bool := search r true s.

(** Concatenation of a sequence of patterns. *)
Definition cat (rs : list regex) : regex := foldr Cat Eps rs.

Definition lower : regex := Range "a" "z".      (* [a-z] *)
Definition digit19 : regex := Range "1" "9".    (* [1-9] *)

End Regexp.
Import Regexp.

(* ================================================================== *)
(** * Constants of [selector.go] *)
(* ================================================================== *)

(** [^[a-z]{2,3}\-([a-z]{1,10}\-)?[a-z]{1,10}\-[1-9]]
    (us-east-1, us-east-2; the pattern has no end anchor). *)
Definition regionNameRegex : regex :=
  cat [Bol; Rep 2 3 lower; Chr "-";
       Opt (cat [Rep 1 10 lower; Chr "-"]);
       Rep 1 10 lower; Chr "-"; digit19].

(** [^[a-z]{3}[1-9]{1}\-az[1-9]$] (use1-az1, use2-az3). *)
Definition zoneIDRegex : regex :=
  cat [Bol; Rep 3 3 lower; Rep 1 1 digit19; Chr "-"; Chr "a"; Chr "z";
       digit19; Eol].

(** [^[a-z]{2,3}\-([a-z]{1,10}\-)?[a-z]{1,10}\-[1-9][a-z]$]
    (us-east-1a, us-east-2c). *)
Definition zoneNameRegex : regex :=
  cat [Bol; Rep 2 3 lower; Chr "-";
       Opt (cat [Rep 1 10 lower; Chr "-"]);
       Rep 1 10 lower; Chr "-"; digit19; lower; Eol].

Definition locationFilterKey : string := "location".
Definition zoneIDLocationType : string := "availability-zone-id".
Definition zoneNameLocationType : string := "availability-zone".
Definition regionNameLocationType : string := "region".

(** Filter keys. *)
Definition cpuArchitecture : string := "cpuArchitecture".
Definition usageClass : string := "usageClass".
Definition rootDeviceType : string := "rootDeviceType".
Definition hibernationSupported : string := "hibernationSupported".
Definition vcpusRange : string := "vcpusRange".
Definition memoryRange : string := "memoryRange".
Definition gpuMemoryRange : string := "gpuMemoryRange".
Definition gpusRange : string := "gpusRange".
Definition placementGroupStrategy : string := "placementGroupStrategy".
Definition hypervisor : string := "hypervisor".
Definition baremetal : string := "baremetal".
Definition burstable : string := "burstable".
Definition fpga : string := "fpga".
Definition enaSupport : string := "enaSupport".
Definition vcpusToMemoryRatio : string := "vcpusToMemoryRatio".
Definition currentGeneration : string := "currentGeneration".
Definition networkInterfaces : string := "networkInterfaces".
Definition networkPerformance : string := "networkPerformance".

(* ================================================================== *)
(** * Errors, outcomes and the EC2 paging protocol *)
(* ================================================================== *)

(** The error values the package builds or passes on.  The text of a
    dispatch error also prints the filter and attribute values; the
    embedding keeps the filter name and the instance type. *)
Inductive error : Type :=
| UnableToProcess (filterName instanceType : string)
    (* "Unable to process for filter (...)" *)
| NoFilterHandler (filterName instanceType : string)
    (* "No filter handler found for filter (...)" *)
| InvalidLocation (zone : string)
    (* "The location passed in (%s) is not a valid zone-id, zone-name, or region name" *)
| DescribeOfferingsFailed (cause : error)
    (* "Encountered an error when describing instance type offerings: %w" *)
| ServiceError (msg : string).
    (* an error returned by the EC2 client *)

(** What a call of a Go function of the package ends in: a value with a
    nil error, a non-nil error (the value is then nil), or a run-time panic. *)
Inductive outcome (A : Type) : Type :=
| Ok (a : A)
| Err (e : error)
| Panic.
Arguments Ok {A} a.
Arguments Err {A} e.
Arguments Panic {A}.

(** A request sent to the EC2 service: for the offerings, with the
    location type and the name and value of the one filter of the input;
    for the instance types, with the empty input. *)
Inductive event : Type :=
| DescribeInstanceTypeOfferingsRequest (locationType filterName filterValue : string)
| DescribeInstanceTypesRequest.

(** What the service answers to a paged operation, request after request:
    the request fails, or it yields a page, which is the last one or has a
    successor. *)
Inductive pager (P : Type) : Type :=
| RequestFails (e : error)
| LastPage (p : P)
| NextPage (p : P) (rest : pager P).
Arguments RequestFails {P} e.
Arguments LastPage {P} p.
Arguments NextPage {P} p rest.

(** What a page callback does to the variables it captures (of type [S]):
    it returns true, it returns false, or it panics. *)
Inductive step (S : Type) : Type :=
| Continue (s : S)
| Stop (s : S)
| Crash.
Arguments Continue {S} s.
Arguments Stop {S} s.
Arguments Crash {S}.

(** The SDK's [...Pages] methods: one request per page, the callback run
    on each page received, until it returns false, the pages end or a
    request fails.  The result is the state of the captured variables with
    the error the method returns, or [None] when the callback panicked;
    and the requests sent.  (Both callbacks ignore [lastPage].) *)
Fixpoint eachPage {P S : Type} (req : event) (pages : pager P)
    (fn : P → S → step S) (s : S) : option (S * option error) * list event :=
  match pages with
  | RequestFails e => (Some (s, Some e), [req])
  | LastPage p =>
      match fn p s with
      | Continue s' | Stop s' => (Some (s', None), [req])
      | Crash => (None, [req])
      end
  | NextPage p rest =>
      match fn p s with
      | Continue s' =>
          let '(r, t) := eachPage req rest fn s' in (r, req :: t)
      | Stop s' => (Some (s', None), [req])
      | Crash => (None, [req])
      end
  end.

(** The pages of a paged answer that arrives whole. *)
Fixpoint servePages {P : Type} (p : P) (ps : list P) : pager P :=
  match ps with
  | [] => LastPage p
  | q :: ps' => NextPage p (servePages q ps')
  end.

(* ================================================================== *)
(** * Data model *)
(* ================================================================== *)

(** ** The records of the EC2 SDK that the package reads *)

Module ec2.

(** The nested structures; [InstanceTypeInfo] holds a pointer to each. *)
Record ProcessorInfo_t : Type :=
  { SupportedArchitectures : list (option string) }.
Record VCpuInfo_t : Type := { DefaultVCpus : option Z }.
Record MemoryInfo_t : Type := { SizeInMiB : option Z }.
Record GpuDeviceInfo : Type :=
  { Count : option Z; GpuDeviceMemorySizeInMiB : option Z }.
Record GpuInfo_t : Type :=
  { Gpus : list (option GpuDeviceInfo); TotalGpuMemoryInMiB : option Z }.
Record FpgaInfo_t : Type := { TotalFpgaMemoryInMiB : option Z }.
Record PlacementGroupInfo_t : Type :=
  { SupportedStrategies : list (option string) }.
Record NetworkInfo_t : Type :=
  { EnaSupport : option string;
    MaximumNetworkInterfaces : option Z;
    NetworkPerformance : option string }.

Record InstanceTypeInfo : Type :=
  { InstanceType : option string;
    ProcessorInfo : option ProcessorInfo_t;
    SupportedUsageClasses : list (option string);
    SupportedRootDeviceTypes : list (option string);
    HibernationSupported : option bool;
    VCpuInfo : option VCpuInfo_t;
    MemoryInfo : option MemoryInfo_t;
    GpuInfo : option GpuInfo_t;
    PlacementGroupInfo : option PlacementGroupInfo_t;
    Hypervisor : option string;
    BareMetal : option bool;
    BurstablePerformanceSupported : option bool;
    FpgaInfo : option FpgaInfo_t;
    NetworkInfo : option NetworkInfo_t;
    CurrentGeneration : option bool }.

Module Offering.
Record InstanceTypeOffering : Type :=
  { InstanceType : option string; Location : option string }.
End Offering.

(** [DescribeInstanceTypesOutput.InstanceTypes] and
    [DescribeInstanceTypeOfferingsOutput.InstanceTypeOfferings]: slices
    of pointers. *)
Definition InstanceTypesPage : Type := list (option InstanceTypeInfo).
Definition OfferingsPage : Type :=
  list (option Offering.InstanceTypeOffering).

(** The EC2 client, as the answers it gives: the offerings for a location
    type and a location value, and the catalog of instance types. *)
Record EC2API : Type :=
  { instanceTypeOfferings : string → string → pager OfferingsPage;
    instanceTypes : pager InstanceTypesPage }.

Definition DescribeInstanceTypeOfferingsPages {S : Type} (c : EC2API)
    (locationType filterName filterValue : string)
    (fn : OfferingsPage → S → step S) (s : S)
    : option (S * option error) * list event :=
  eachPage (DescribeInstanceTypeOfferingsRequest locationType filterName filterValue)
    (instanceTypeOfferings c locationType filterValue) fn s.

Definition DescribeInstanceTypesPages {S : Type} (c : EC2API)
    (fn : InstanceTypesPage → S → step S) (s : S)
    : option (S * option error) * list event :=
  eachPage DescribeInstanceTypesRequest (instanceTypes c) fn s.

End ec2.

Record Selector : Type := { EC2 : ec2.EC2API }.

(** ** The types of the package *)

(** Modelled from the spec: the declaration of [IntRangeFilter] is not in
    selector.go.  Spec section 3: a numeric range has a minimum bound and a
    maximum bound, and either may be absent (unbounded on that side). *)
Record IntRangeFilter : Type :=
  { LowerBound : option Z; UpperBound : option Z }.

(** The dynamic value of a [filterPair.filterValue], by the cases of the
    type switch of [executeFilters]: a pointer to a string, a bool, an
    [IntRangeFilter] or a float64, or a pointer of a type the switch has no
    case for (nil or not). *)
Inductive filterVal : Type :=
| FString (p : option string)
| FBool (p : option bool)
| FIntRange (p : option IntRangeFilter)
| FFloat64 (p : option float)
| FOther (isNil : bool).

(** The dynamic value of a [filterPair.instanceSpec], by the cases of the
    inner type switches: [[]*string], [*string], [*bool], [*int64], [*int],
    [*float64], or any other type. *)
Inductive specVal : Type :=
| SStrings (l : list (option string))
| SString (p : option string)
| SBool (p : option bool)
| SInt64 (p : option Z)
| SInt (p : option Z)
| SFloat64 (p : option float)
| SOther.

Record filterPair : Type :=
  { filterValue : filterVal; instanceSpec : specVal }.

(** [Filters]: its declaration is not in selector.go.  [rawFilter] reads
    [AvailabilityZone] and [Region] as [*string] and [MaxResults] as
    [*int]; every other field is only stored in a [filterPair], as an
    [interface{}], so it is kept as a dynamic value. *)
Record Filters : Type :=
  { AvailabilityZone : option string;
    Region : option string;
    MaxResults : option Z;
    CPUArchitecture : filterVal;
    UsageClass : filterVal;
    RootDeviceType : filterVal;
    HibernationSupported : filterVal;
    VCpusRange : filterVal;
    MemoryRange : filterVal;
    GpuMemoryRange : filterVal;
    GpusRange : filterVal;
    PlacementGroupStrategy : filterVal;
    Hypervisor : filterVal;
    BareMetal : filterVal;
    Burstable : filterVal;
    Fpga : filterVal;
    EnaSupport : filterVal;
    VCpusToMemoryRatio : filterVal;
    CurrentGeneration : filterVal;
    NetworkInterfaces : filterVal;
    NetworkPerformance : filterVal }.

(** [reflect.ValueOf(filterVal).IsNil()] *)
Definition IsNil (v : filterVal) : bool :=
  match v with
  | FString None | FBool None | FIntRange None | FFloat64 None => true
  | FOther isNil => isNil
  | _ => false
  end.

(** The functions of the package that selector.go calls and does not
    define: the comparators, the derived attributes of a record, and the
    default output function.  The result type of a derived attribute is
    not visible in selector.go; it is a dynamic [specVal]. *)
Class Helpers : Type :=
  { isSupportedFromStrings : list (option string) → option string → bool;
    isSupportedFromString : option string → option string → bool;
    isSupportedWithBool : option bool → option bool → bool;
    isSupportedWithRangeInt64 : option Z → option IntRangeFilter → bool;
    isSupportedWithRangeInt : option Z → option IntRangeFilter → bool;
    isSupportedWithFloat64 : option float → option float → bool;
    getTotalGpuMemory : option ec2.GpuInfo_t → specVal;
    getTotalGpusCount : option ec2.GpuInfo_t → specVal;
    supportSyntaxToBool : option string → specVal;
    calculateVCpusToMemoryRatio : option Z → option Z → specVal;
    getNetworkPerformance : option string → specVal;
    SimpleInstanceTypeOutput : list ec2.InstanceTypeInfo → list string }.

(** The order in which a [range] statement visits a map is not specified
    and may change from one statement to the next: [mapRange n l] is the
    order the [n]-th range statement of a run visits the entries [l] in. *)
Class MapOrder : Type :=
  { mapRange : ∀ {A : Type}, nat → list (string * A) → list (string * A);
    mapRange_perm : ∀ (A : Type) (n : nat) (l : list (string * A)),
        mapRange n l ≡ₚ l }.

(* ================================================================== *)
(** * The functions of selector.go *)
(* ================================================================== *)

(** [strings.Compare]: bytewise lexicographic comparison, as -1, 0 or 1. *)
Definition strings_Compare (a b : string) : Z :=
  match String.compare a b with Lt => -1 | Eq => 0 | Gt => 1 end.

(** The slice expression [s[0:hi]] for [hi] up to [len(s)]: it panics on a
    negative bound.  (The embedding gives a slice no capacity beyond its
    length; [truncateResults] never asks for more than the length.) *)
Definition slice_to {A : Type} (s : list A) (hi : Z) : outcome (list A) :=
  if (hi <? 0) || (Z.of_nat (length s) <? hi) then Panic
  else Ok (take (Z.to_nat hi) s).

(** The name a record of the candidate set is sorted by.  The pointer is
    never nil there: [rawFilter] has dereferenced it before the insertion. *)
Definition instanceTypeName (i : ec2.InstanceTypeInfo) : string :=
  default "" (ec2.InstanceType i).

(** The [less] function of [sortInstanceTypeInfo]. *)
Definition less (i j : ec2.InstanceTypeInfo) : bool :=
  strings_Compare (instanceTypeName i) (instanceTypeName j) <=? 0.

Definition lessR : relation ec2.InstanceTypeInfo := λ i j, less i j = true.

Global Instance lessR_dec : RelDecision lessR.
Proof. intros i j. unfold lessR. apply _. Defined.

(** [sortInstanceTypeInfo]: [sort.Slice] with [less].  The library sort is
    rendered by a merge sort; on a slice without repeated names every
    sort that returns an ordered permutation returns this one
    ([sorted_by_name_unique] below). *)
Definition sortInstanceTypeInfo (instanceTypeInfoSlice : list ec2.InstanceTypeInfo)
    : list ec2.InstanceTypeInfo :=
  merge_sort lessR instanceTypeInfoSlice.

Definition isSupportedInLocation (instanceOfferings : option (gmap string string))
    (instanceType : string) : bool :=
  match instanceOfferings with
  | None => true
  | Some offerings =>
      match offerings !! instanceType with Some _ => true | None => false end
  end.

(** The callback of [RetrieveInstanceTypesSupportedInLocation]: it stores
    every offering of the page in the captured map and returns true. *)
Fixpoint offeringsCallback (page : ec2.OfferingsPage)
    (availableInstanceTypes : gmap string string) : step (gmap string string) :=
  match page with
  | [] => Continue availableInstanceTypes
  | instanceType :: page' =>
      match instanceType with
      | Some {| ec2.Offering.InstanceType := Some name;
                ec2.Offering.Location := Some location |} =>
          offeringsCallback page' (<[name := location]> availableInstanceTypes)
      | _ => Crash  (* nil pointer dereference *)
      end
  end.

(** The if / else-if chain that sets the location type of the request. *)
Definition locationTypeOf (zone : string) : option string :=
  if MatchString zoneIDRegex zone then Some zoneIDLocationType
  else if MatchString zoneNameRegex zone then Some zoneNameLocationType
  else if MatchString regionNameRegex zone then Some regionNameLocationType
  else None.

Definition RetrieveInstanceTypesSupportedInLocation (itf : Selector) (zone : string)
    : outcome (option (gmap string string)) * list event :=
  if String.eqb zone "" then (Ok None, [])
  else
    match locationTypeOf zone with
    | None => (Err (InvalidLocation zone), [])
    | Some locationType =>
        let '(r, t) :=
          ec2.DescribeInstanceTypeOfferingsPages (EC2 itf) locationType
            locationFilterKey zone offeringsCallback ∅ in
        match r with
        | None => (Panic, t)
        | Some (_, Some err) => (Err (DescribeOfferingsFailed err), t)
        | Some (availableInstanceTypes, None) => (Ok (Some availableInstanceTypes), t)
        end
    end.

Definition truncateResults {A : Type} (itf : Selector) (maxResults : option Z)
    (instanceTypeInfoSlice : list A) : outcome (list A) :=
  match maxResults with
  | None => Ok instanceTypeInfoSlice
  | Some m =>
      let upperIndex :=
        if Z.of_nat (length instanceTypeInfoSlice) <? m
        then Z.of_nat (length instanceTypeInfoSlice) else m in
      slice_to instanceTypeInfoSlice upperIndex
  end.

(** The variable [location] of [rawFilter]: the availability zone if one
    is given, else the region if one is given, else the empty string. *)
Definition locationOf (filters : Filters) : string :=
  match AvailabilityZone filters with
  | Some az => az
  | None => match Region filters with Some region => region | None => "" end
  end.

Section selector.
Context {helpers : Helpers} {order : MapOrder}.

(** [executeFilters]; [filterToInstanceSpecMapping] lists the entries of
    the map in the order the range statement visits them.  The result is
    the pair the Go function returns. *)
Fixpoint executeFilters (itf : Selector)
    (filterToInstanceSpecMapping : list (string * filterPair))
    (instanceType : string) : bool * option error :=
  match filterToInstanceSpecMapping with
  | [] => (true, None)
  | (filterName, fPair) :: rest =>
      let filterVal := filterValue fPair in
      let instanceSpec := instanceSpec fPair in
      if IsNil filterVal then executeFilters itf rest instanceType
      else
        match filterVal with
        | FString filter =>
            match instanceSpec with
            | SStrings iSpec =>
                if negb (isSupportedFromStrings iSpec filter) then (false, None)
                else executeFilters itf rest instanceType
            | SString iSpec =>
                if negb (isSupportedFromString iSpec filter) then (false, None)
                else executeFilters itf rest instanceType
            | _ => (false, Some (UnableToProcess filterName instanceType))
            end
        | FBool filter =>
            match instanceSpec with
            | SBool iSpec =>
                if negb (isSupportedWithBool iSpec filter) then (false, None)
                else executeFilters itf rest instanceType
            | _ => (false, Some (UnableToProcess filterName instanceType))
            end
        | FIntRange filter =>
            match instanceSpec with
            | SInt64 iSpec =>
                if negb (isSupportedWithRangeInt64 iSpec filter) then (false, None)
                else executeFilters itf rest instanceType
            | SInt iSpec =>
                if negb (isSupportedWithRangeInt iSpec filter) then (false, None)
                else executeFilters itf rest instanceType
            | _ => (false, Some (UnableToProcess filterName instanceType))
            end
        | FFloat64 filter =>
            match instanceSpec with
            | SFloat64 iSpec =>
                if negb (isSupportedWithFloat64 iSpec filter) then (false, None)
                else executeFilters itf rest instanceType
            | _ => (false, Some (UnableToProcess filterName instanceType))
            end
        | FOther _ => (false, Some (NoFilterHandler filterName instanceType))
        end
  end.

(** The map literal [filterToInstanceSpecMappingPairs] of [rawFilter],
    in the order of the source; [None] when building it dereferences a
    nil pointer of the record. *)
Definition filterToInstanceSpecMappingPairs (filters : Filters)
    (instanceTypeInfo : ec2.InstanceTypeInfo) : option (list (string * filterPair)) :=
  let isFpga := bool_decide (ec2.FpgaInfo instanceTypeInfo ≠ None) in
  processorInfo ← ec2.ProcessorInfo instanceTypeInfo;
  vCpuInfo ← ec2.VCpuInfo instanceTypeInfo;
  memoryInfo ← ec2.MemoryInfo instanceTypeInfo;
  placementGroupInfo ← ec2.PlacementGroupInfo instanceTypeInfo;
  networkInfo ← ec2.NetworkInfo instanceTypeInfo;
  Some
    [ (cpuArchitecture,
        {| filterValue := CPUArchitecture filters;
           instanceSpec := SStrings (ec2.SupportedArchitectures processorInfo) |});
      (usageClass,
        {| filterValue := UsageClass filters;
           instanceSpec := SStrings (ec2.SupportedUsageClasses instanceTypeInfo) |});
      (rootDeviceType,
        {| filterValue := RootDeviceType filters;
           instanceSpec := SStrings (ec2.SupportedRootDeviceTypes instanceTypeInfo) |});
      (hibernationSupported,
        {| filterValue := HibernationSupported filters;
           instanceSpec := SBool (ec2.HibernationSupported instanceTypeInfo) |});
      (vcpusRange,
        {| filterValue := VCpusRange filters;
           instanceSpec := SInt64 (ec2.DefaultVCpus vCpuInfo) |});
      (memoryRange,
        {| filterValue := MemoryRange filters;
           instanceSpec := SInt64 (ec2.SizeInMiB memoryInfo) |});
      (gpuMemoryRange,
        {| filterValue := GpuMemoryRange filters;
           instanceSpec := getTotalGpuMemory (ec2.GpuInfo instanceTypeInfo) |});
      (gpusRange,
        {| filterValue := GpusRange filters;
           instanceSpec := getTotalGpusCount (ec2.GpuInfo instanceTypeInfo) |});
      (placementGroupStrategy,
        {| filterValue := PlacementGroupStrategy filters;
           instanceSpec := SStrings (ec2.SupportedStrategies placementGroupInfo) |});
      (hypervisor,
        {| filterValue := Hypervisor filters;
           instanceSpec := SString (ec2.Hypervisor instanceTypeInfo) |});
      (baremetal,
        {| filterValue := BareMetal filters;
           instanceSpec := SBool (ec2.BareMetal instanceTypeInfo) |});
      (burstable,
        {| filterValue := Burstable filters;
           instanceSpec := SBool (ec2.BurstablePerformanceSupported instanceTypeInfo) |});
      (fpga,
        {| filterValue := Fpga filters;
           instanceSpec := SBool (Some isFpga) |});
      (enaSupport,
        {| filterValue := EnaSupport filters;
           instanceSpec := supportSyntaxToBool (ec2.EnaSupport networkInfo) |});
      (vcpusToMemoryRatio,
        {| filterValue := VCpusToMemoryRatio filters;
           instanceSpec :=
             calculateVCpusToMemoryRatio (ec2.DefaultVCpus vCpuInfo)
               (ec2.SizeInMiB memoryInfo) |});
      (currentGeneration,
        {| filterValue := CurrentGeneration filters;
           instanceSpec := SBool (ec2.CurrentGeneration instanceTypeInfo) |});
      (networkInterfaces,
        {| filterValue := NetworkInterfaces filters;
           instanceSpec := SInt64 (ec2.MaximumNetworkInterfaces networkInfo) |});
      (networkPerformance,
        {| filterValue := NetworkPerformance filters;
           instanceSpec := getNetworkPerformance (ec2.NetworkPerformance networkInfo) |}) ].

(** The variables the page callback of [rawFilter] captures, and the
    number of range statements over a map executed so far. *)
Record captured : Type :=
  { instanceTypeCandidates : gmap string ec2.InstanceTypeInfo;
    innerErr : option error;
    ranges : nat }.

(** The page callback of [rawFilter]: the loop over the records of one
    page. *)
Fixpoint instanceTypesCallback (itf : Selector) (filters : Filters)
    (locationInstanceOfferings : option (gmap string string))
    (page : ec2.InstanceTypesPage) (st : captured) : step captured :=
  match page with
  | [] => Continue st  (* continue paging through instance types *)
  | p :: page' =>
      match
        instanceTypeInfo ← p;
        instanceTypeName ← ec2.InstanceType instanceTypeInfo;
        pairs ← filterToInstanceSpecMappingPairs filters instanceTypeInfo;
        Some (instanceTypeInfo, instanceTypeName, pairs)
      with
      | None => Crash  (* nil pointer dereference *)
      | Some (instanceTypeInfo, instanceTypeName, pairs) =>
          let inserted :=
            <[instanceTypeName := instanceTypeInfo]> (instanceTypeCandidates st) in
          let located :=
            if negb (isSupportedInLocation locationInstanceOfferings instanceTypeName)
            then delete instanceTypeName inserted else inserted in
          let '(isInstanceSupported, err) :=
            executeFilters itf (mapRange (ranges st) pairs) instanceTypeName in
          match err with
          | Some e =>
              (* stops paging through instance types *)
              Stop {| instanceTypeCandidates := located;
                      innerErr := Some e;
                      ranges := S (ranges st) |}
          | None =>
              let filtered :=
                if negb isInstanceSupported
                then delete instanceTypeName located else located in
              instanceTypesCallback itf filters locationInstanceOfferings page'
                {| instanceTypeCandidates := filtered;
                   innerErr := None;
                   ranges := S (ranges st) |}
          end
      end
  end.

(** The captured variables when paging starts. *)
Definition noCandidates : captured :=
  {| instanceTypeCandidates := ∅; innerErr := None; ranges := 0 |}.

Definition rawFilter (itf : Selector) (filters : Filters)
    : outcome (list ec2.InstanceTypeInfo) * list event :=
  let location := locationOf filters in
  let '(offerings, t1) := RetrieveInstanceTypesSupportedInLocation itf location in
  match offerings with
  | Err err => (Err err, t1)
  | Panic => (Panic, t1)
  | Ok locationInstanceOfferings =>
      let '(r, t2) :=
        ec2.DescribeInstanceTypesPages (EC2 itf)
          (instanceTypesCallback itf filters locationInstanceOfferings)
          noCandidates in
      match r with
      | None => (Panic, t1 ++ t2)
      | Some (_, Some err) => (Err err, t1 ++ t2)
      | Some (st, None) =>
          match innerErr st with
          | Some err => (Err err, t1 ++ t2)
          | None =>
              let instanceTypeInfoSlice :=
                (mapRange (ranges st) (map_to_list (instanceTypeCandidates st))).*2 in
              (Ok (sortInstanceTypeInfo instanceTypeInfoSlice), t1 ++ t2)
          end
      end
  end.

Definition FilterVerbose (itf : Selector) (filters : Filters)
    : outcome (list ec2.InstanceTypeInfo) * list event :=
  let '(r, t) := rawFilter itf filters in
  match r with
  | Err err => (Err err, t)
  | Panic => (Panic, t)
  | Ok instanceTypeInfoSlice =>
      (truncateResults itf (MaxResults filters) instanceTypeInfoSlice, t)
  end.

Definition FilterWithOutput (itf : Selector) (filters : Filters)
    (outputFn : list ec2.InstanceTypeInfo → list string)
    : outcome (list string) * list event :=
  let '(r, t) := rawFilter itf filters in
  match r with
  | Err err => (Err err, t)
  | Panic => (Panic, t)
  | Ok instanceTypeInfoSlice =>
      match truncateResults itf (MaxResults filters) instanceTypeInfoSlice with
      | Ok truncated => (Ok (outputFn truncated), t)
      | Err err => (Err err, t)
      | Panic => (Panic, t)
      end
  end.

Definition Filter (itf : Selector) (filters : Filters)
    : outcome (list string) * list event :=
  FilterWithOutput itf filters SimpleInstanceTypeOutput.

End selector.

(* ================================================================== *)
(** * Notions the properties are stated with *)
(* ================================================================== *)

(** [pagesThen ps rest]: the pages [ps], then the answers of [rest]. *)
Fixpoint pagesThen {P : Type} (ps : list P) (rest : pager P) : pager P :=
  match ps with
  | [] => rest
  | p :: ps' => NextPage p (pagesThen ps' rest)
  end.

(** A page that is the last one, or is followed by further answers. *)
Definition onePage {P : Type} (p : P) (more : option (pager P)) : pager P :=
  match more with
  | None => LastPage p
  | Some rest => NextPage p rest
  end.

(** The 18 filter values of a specification, in the order of the table. *)
Definition filterFields (filters : Filters) : list filterVal :=
  [ CPUArchitecture filters; UsageClass filters; RootDeviceType filters;
    HibernationSupported filters; VCpusRange filters; MemoryRange filters;
    GpuMemoryRange filters; GpusRange filters; PlacementGroupStrategy filters;
    Hypervisor filters; BareMetal filters; Burstable filters; Fpga filters;
    EnaSupport filters; VCpusToMemoryRatio filters; CurrentGeneration filters;
    NetworkInterfaces filters; NetworkPerformance filters ].

(** Every field of the specification is absent. *)
Definition unfiltered (filters : Filters) : bool :=
  bool_decide (AvailabilityZone filters = None) &&
  bool_decide (Region filters = None) &&
  bool_decide (MaxResults filters = None) &&
  forallb IsNil (filterFields filters).

(** A record of a page from which the callback reads without a nil
    dereference: it has a name and the five nested structures. *)
Definition populated (p : option ec2.InstanceTypeInfo) : bool :=
  match p with
  | Some info =>
      bool_decide (is_Some (ec2.InstanceType info)) &&
      bool_decide (is_Some (ec2.ProcessorInfo info)) &&
      bool_decide (is_Some (ec2.VCpuInfo info)) &&
      bool_decide (is_Some (ec2.MemoryInfo info)) &&
      bool_decide (is_Some (ec2.PlacementGroupInfo info)) &&
      bool_decide (is_Some (ec2.NetworkInfo info))
  | None => false
  end.

(** The name of a record of a page, if it has one. *)
Definition recordName (p : option ec2.InstanceTypeInfo) : option string :=
  p ≫= ec2.InstanceType.

(** The record [p] has the name [name]. *)
Definition named (name : string) (p : option ec2.InstanceTypeInfo) : bool :=
  match p with
  | Some info => bool_decide (ec2.InstanceType info = Some name)
  | None => false
  end.

(** The last record of the name [name] among [records]. *)
Fixpoint lastNamed (name : string) (records : ec2.InstanceTypesPage)
    : option ec2.InstanceTypeInfo :=
  match records with
  | [] => None
  | p :: records' =>
      match lastNamed name records' with
      | Some info => Some info
      | None => if named name p then p else None
      end
  end.

(** Ascending order on names, strictly. *)
Definition nameBefore : relation ec2.InstanceTypeInfo :=
  λ i j, strings_Compare (instanceTypeName i) (instanceTypeName j) < 0.

Section notions.
Context {helpers : Helpers} {order : MapOrder}.

(** The comparator the two type switches select for a pair, applied to
    it; [false] when the switches have no case for the two shapes. *)
Definition comparatorPasses (fPair : filterPair) : bool :=
  match filterValue fPair, instanceSpec fPair with
  | FString filter, SStrings iSpec => isSupportedFromStrings iSpec filter
  | FString filter, SString iSpec => isSupportedFromString iSpec filter
  | FBool filter, SBool iSpec => isSupportedWithBool iSpec filter
  | FIntRange filter, SInt64 iSpec => isSupportedWithRangeInt64 iSpec filter
  | FIntRange filter, SInt iSpec => isSupportedWithRangeInt iSpec filter
  | FFloat64 filter, SFloat64 iSpec => isSupportedWithFloat64 iSpec filter
  | _, _ => false
  end.

(** A pair is satisfied when its filter is absent or its comparator passes. *)
Definition satisfied (fPair : filterPair) : bool :=
  IsNil (filterValue fPair) || comparatorPasses fPair.

(** The pair of a present filter whose shapes the switches do not handle. *)
Definition mismatched (fPair : filterPair) : bool :=
  negb (IsNil (filterValue fPair)) &&
  match filterValue fPair, instanceSpec fPair with
  | FString _, (SStrings _ | SString _) => false
  | FBool _, SBool _ => false
  | FIntRange _, (SInt64 _ | SInt _) => false
  | FFloat64 _, SFloat64 _ => false
  | _, _ => true
  end.

(** Every entry of a table is satisfied. *)
Definition allSatisfied (entries : list (string * filterPair)) : bool :=
  forallb (λ entry, satisfied entry.2) entries.

(** The filters accept a record: every entry of its table is satisfied. *)
Definition accepts (filters : Filters) (info : ec2.InstanceTypeInfo) : bool :=
  match filterToInstanceSpecMappingPairs filters info with
  | Some pairs => allSatisfied pairs
  | None => false
  end.

(** [relaxes filters' filters]: the specification [filters'] is
    [filters] with some of its filters removed (made absent). *)
Definition relaxes (filters' filters : Filters) : Prop :=
  Forall2 (λ v' v, v' = v ∨ IsNil v' = true)
    (filterFields filters') (filterFields filters).

(** The slice [rawFilter] returns for the captured variables [st]. *)
Definition collected (st : captured) : list ec2.InstanceTypeInfo :=
  sortInstanceTypeInfo
    (mapRange (ranges st) (map_to_list (instanceTypeCandidates st))).*2.

(** The filter operation fails with [e] after the requests [t]: so do
    [rawFilter] and the three entry points, and none returns a list. *)
Definition failsWith (itf : Selector) (filters : Filters)
    (outputFn : list ec2.InstanceTypeInfo → list string)
    (e : error) (t : list event) : Prop :=
  rawFilter itf filters = (Err e, t) ∧
  FilterVerbose itf filters = (Err e, t) ∧
  FilterWithOutput itf filters outputFn = (Err e, t) ∧
  Filter itf filters = (Err e, t).

End notions.

(* ================================================================== *)
(** * Further notions: offerings, pagers, and changes of a specification *)
(* ================================================================== *)

(** The pattern has no end anchor. *)
Fixpoint eol_free (r : regex) : bool :=
  match r with
  | Eol => false
  | Cat r1 r2 => eol_free r1 && eol_free r2
  | Opt r1 | Rep _ _ r1 => eol_free r1
  | Eps | Bol | Chr _ | Range _ _ => true
  end.

(** An offering from which the callback reads without a nil dereference. *)
Definition offered (o : option ec2.Offering.InstanceTypeOffering) : bool :=
  match o with
  | Some {| ec2.Offering.InstanceType := Some _;
            ec2.Offering.Location := Some _ |} => true
  | _ => false
  end.

(** The location of the last offering of the name [name]. *)
Fixpoint lastOffered (name : string) (offerings : ec2.OfferingsPage) : option string :=
  match offerings with
  | [] => None
  | o :: offerings' =>
      match lastOffered name offerings' with
      | Some location => Some location
      | None =>
          match o with
          | Some {| ec2.Offering.InstanceType := Some n;
                    ec2.Offering.Location := Some location |} =>
              if String.eqb n name then Some location else None
          | _ => None
          end
      end
  end.

(** Every page a paged answer holds, requested or not. *)
Fixpoint pages_of {P : Type} (pages : pager P) : list P :=
  match pages with
  | RequestFails _ => []
  | LastPage p => [p]
  | NextPage p rest => p :: pages_of rest
  end.

(** The error of a table entry whose present filter has no comparator. *)
Definition dispatchError (instanceType : string) (entry : string * filterPair) : error :=
  match filterValue entry.2 with
  | FOther _ => NoFilterHandler entry.1 instanceType
  | _ => UnableToProcess entry.1 instanceType
  end.

(** A specification with another maximum, and with another region. *)
Definition withMaxResults (maxResults : option Z) (f : Filters) : Filters :=
  {| AvailabilityZone := AvailabilityZone f; Region := Region f;
     MaxResults := maxResults;
     CPUArchitecture := CPUArchitecture f; UsageClass := UsageClass f;
     RootDeviceType := RootDeviceType f;
     HibernationSupported := HibernationSupported f;
     VCpusRange := VCpusRange f; MemoryRange := MemoryRange f;
     GpuMemoryRange := GpuMemoryRange f; GpusRange := GpusRange f;
     PlacementGroupStrategy := PlacementGroupStrategy f;
     Hypervisor := Hypervisor f;
     BareMetal := BareMetal f; Burstable := Burstable f; Fpga := Fpga f;
     EnaSupport := EnaSupport f; VCpusToMemoryRatio := VCpusToMemoryRatio f;
     CurrentGeneration := CurrentGeneration f;
     NetworkInterfaces := NetworkInterfaces f;
     NetworkPerformance := NetworkPerformance f |}.

Definition withRegion (region : option string) (f : Filters) : Filters :=
  {| AvailabilityZone := AvailabilityZone f; Region := region;
     MaxResults := MaxResults f;
     CPUArchitecture := CPUArchitecture f; UsageClass := UsageClass f;
     RootDeviceType := RootDeviceType f;
     HibernationSupported := HibernationSupported f;
     VCpusRange := VCpusRange f; MemoryRange := MemoryRange f;
     GpuMemoryRange := GpuMemoryRange f; GpusRange := GpusRange f;
     PlacementGroupStrategy := PlacementGroupStrategy f;
     Hypervisor := Hypervisor f;
     BareMetal := BareMetal f; Burstable := Burstable f; Fpga := Fpga f;
     EnaSupport := EnaSupport f; VCpusToMemoryRatio := VCpusToMemoryRatio f;
     CurrentGeneration := CurrentGeneration f;
     NetworkInterfaces := NetworkInterfaces f;
     NetworkPerformance := NetworkPerformance f |}.

(** The call ends in a value or an error, not in a panic. *)
Definition returns {A : Type} (r : outcome A * list event) : Prop :=
  ∃ t, (∃ a, r = (Ok a, t)) ∨ (∃ e, r = (Err e, t)).

(* ================================================================== *)
(** * An instance of the absent helpers, and a sample catalog *)
(* ================================================================== *)

Module Reference.

(** Modelled from the spec: the comparators are not in selector.go.
    Spec section 4.2: a string filter passes against a set attribute iff
    the set contains it, and against a scalar attribute iff equal; a bool
    filter passes iff equal; a range filter passes iff the attribute is
    at least the minimum and at most the maximum, each if present.  A
    nil attribute passes no present filter. *)
Definition fromStrings (values : list (option string)) (target : option string) : bool :=
  match target with
  | None => true
  | Some t => existsb (λ v, match v with Some s => String.eqb s t | None => false end) values
  end.

Definition fromString (value target : option string) : bool :=
  match target, value with
  | None, _ => true
  | Some t, Some v => String.eqb v t
  | Some _, None => false
  end.

Definition withBool (value target : option bool) : bool :=
  match target, value with
  | None, _ => true
  | Some t, Some v => Bool.eqb t v
  | Some _, None => false
  end.

Definition withRange (value : option Z) (target : option IntRangeFilter) : bool :=
  match target, value with
  | None, _ => true
  | Some range, Some v =>
      match LowerBound range with Some lo => lo <=? v | None => true end
      && match UpperBound range with Some hi => v <=? hi | None => true end
  | Some _, None => false
  end.

(** The spec gives no rule for a float64 filter against a float64
    attribute (the last case of the type switch); the instance compares
    the two for equality. *)
Definition withFloat64 (value target : option float) : bool :=
  match target, value with
  | None, _ => true
  | Some t, Some v => PrimFloat.eqb v t
  | Some _, None => false
  end.

(** Modelled from the spec: the derived attributes are not in
    selector.go.  Spec sections 3 and 4.2: GPU memory and GPU count total
    0 when there is no GPU info; enhanced networking is false only for
    the literal "unsupported". *)
Definition totalGpuMemory (gpusInfo : option ec2.GpuInfo_t) : specVal :=
  match gpusInfo with
  | None => SInt64 (Some 0)
  | Some info => SInt64 (ec2.TotalGpuMemoryInMiB info)
  end.

Definition totalGpusCount (gpusInfo : option ec2.GpuInfo_t) : specVal :=
  match gpusInfo with
  | None => SInt64 (Some 0)
  | Some info =>
      SInt64 (Some (foldr (λ gpu total,
                match gpu with
                | Some g => default 0 (ec2.Count g) + total
                | None => total
                end) 0 (ec2.Gpus info)))
  end.

Definition syntaxToBool (instanceTypeSupport : option string) : specVal :=
  match instanceTypeSupport with
  | None => SBool None
  | Some s => SBool (Some (negb (String.eqb s "unsupported")))
  end.

(** The ratio and the bandwidth are left nil by the instance: the spec
    fixes neither the precision of the one nor the parsing of the other. *)
Definition vCpusToMemoryRatio (vcpus memory : option Z) : specVal := SFloat64 None.
Definition bandwidth (networkPerformance : option string) : specVal := SInt None.

Definition simpleOutput (l : list ec2.InstanceTypeInfo) : list string :=
  map instanceTypeName l.

Definition helpers : Helpers :=
  {| isSupportedFromStrings := fromStrings;
     isSupportedFromString := fromString;
     isSupportedWithBool := withBool;
     isSupportedWithRangeInt64 := withRange;
     isSupportedWithRangeInt := withRange;
     isSupportedWithFloat64 := withFloat64;
     getTotalGpuMemory := totalGpuMemory;
     getTotalGpusCount := totalGpusCount;
     supportSyntaxToBool := syntaxToBool;
     calculateVCpusToMemoryRatio := vCpusToMemoryRatio;
     getNetworkPerformance := bandwidth;
     SimpleInstanceTypeOutput := simpleOutput |}.

(** Two iteration orders: the order of the source, and its reverse. *)
Program Definition sourceOrder : MapOrder :=
  {| mapRange := λ A n l, l |}.
Next Obligation. reflexivity. Qed.

Program Definition reverseOrder : MapOrder :=
  {| mapRange := λ A n l, reverse l |}.
Next Obligation. intros. apply reverse_Permutation. Qed.

(** A record with every nested structure present. *)
Definition record (name : string) (vcpus memory : Z) (burst : bool)
    : ec2.InstanceTypeInfo :=
  {| ec2.InstanceType := Some name;
     ec2.ProcessorInfo := Some {| ec2.SupportedArchitectures := [Some "x86_64"] |};
     ec2.SupportedUsageClasses := [Some "on-demand"; Some "spot"];
     ec2.SupportedRootDeviceTypes := [Some "ebs"];
     ec2.HibernationSupported := Some false;
     ec2.VCpuInfo := Some {| ec2.DefaultVCpus := Some vcpus |};
     ec2.MemoryInfo := Some {| ec2.SizeInMiB := Some memory |};
     ec2.GpuInfo := None;
     ec2.PlacementGroupInfo := Some {| ec2.SupportedStrategies := [Some "cluster"] |};
     ec2.Hypervisor := Some "nitro";
     ec2.BareMetal := Some false;
     ec2.BurstablePerformanceSupported := Some burst;
     ec2.FpgaInfo := None;
     ec2.NetworkInfo :=
       Some {| ec2.EnaSupport := Some "required";
               ec2.MaximumNetworkInterfaces := Some 3;
               ec2.NetworkPerformance := Some "Up to 10 Gigabit" |};
     ec2.CurrentGeneration := Some true |}.

(** The filter specification with every field absent. *)
Definition noFilters : Filters :=
  {| AvailabilityZone := None; Region := None; MaxResults := None;
     CPUArchitecture := FString None; UsageClass := FString None;
     RootDeviceType := FString None; HibernationSupported := FBool None;
     VCpusRange := FIntRange None; MemoryRange := FIntRange None;
     GpuMemoryRange := FIntRange None; GpusRange := FIntRange None;
     PlacementGroupStrategy := FString None; Hypervisor := FString None;
     BareMetal := FBool None; Burstable := FBool None; Fpga := FBool None;
     EnaSupport := FBool None; VCpusToMemoryRatio := FFloat64 None;
     CurrentGeneration := FBool None; NetworkInterfaces := FIntRange None;
     NetworkPerformance := FIntRange None |}.

(** [setFilter key v f]: the specification [f] with the filter of the
    table entry [key] set to [v]. *)
Definition setFilter (key : string) (v : filterVal) (f : Filters) : Filters :=
  let pick (k : string) (old : filterVal) :=
    if String.eqb key k then v else old in
  {| AvailabilityZone := AvailabilityZone f; Region := Region f;
     MaxResults := MaxResults f;
     CPUArchitecture := pick cpuArchitecture (CPUArchitecture f);
     UsageClass := pick usageClass (UsageClass f);
     RootDeviceType := pick rootDeviceType (RootDeviceType f);
     HibernationSupported := pick hibernationSupported (HibernationSupported f);
     VCpusRange := pick vcpusRange (VCpusRange f);
     MemoryRange := pick memoryRange (MemoryRange f);
     GpuMemoryRange := pick gpuMemoryRange (GpuMemoryRange f);
     GpusRange := pick gpusRange (GpusRange f);
     PlacementGroupStrategy := pick placementGroupStrategy (PlacementGroupStrategy f);
     Hypervisor := pick hypervisor (Hypervisor f);
     BareMetal := pick baremetal (BareMetal f);
     Burstable := pick burstable (Burstable f);
     Fpga := pick fpga (Fpga f);
     EnaSupport := pick enaSupport (EnaSupport f);
     VCpusToMemoryRatio := pick vcpusToMemoryRatio (VCpusToMemoryRatio f);
     CurrentGeneration := pick currentGeneration (CurrentGeneration f);
     NetworkInterfaces := pick networkInterfaces (NetworkInterfaces f);
     NetworkPerformance := pick networkPerformance (NetworkPerformance f) |}.

Definition range (lo hi : Z) : filterVal :=
  FIntRange (Some {| LowerBound := Some lo; UpperBound := Some hi |}).

Definition withLocation (az : option string) (maxResults : option Z)
    (f : Filters) : Filters :=
  {| AvailabilityZone := az; Region := Region f;
     MaxResults := maxResults;
     CPUArchitecture := CPUArchitecture f; UsageClass := UsageClass f;
     RootDeviceType := RootDeviceType f;
     HibernationSupported := HibernationSupported f;
     VCpusRange := VCpusRange f; MemoryRange := MemoryRange f;
     GpuMemoryRange := GpuMemoryRange f; GpusRange := GpusRange f;
     PlacementGroupStrategy := PlacementGroupStrategy f;
     Hypervisor := Hypervisor f;
     BareMetal := BareMetal f; Burstable := Burstable f; Fpga := Fpga f;
     EnaSupport := EnaSupport f; VCpusToMemoryRatio := VCpusToMemoryRatio f;
     CurrentGeneration := CurrentGeneration f;
     NetworkInterfaces := NetworkInterfaces f;
     NetworkPerformance := NetworkPerformance f |}.

(** The catalog of the spec's example scenarios, served in two pages,
    and the offerings of zone use1-az1. *)
Definition m5_large := record "m5.large" 2 8192 false.
Definition m5_xlarge := record "m5.xlarge" 4 16384 false.
Definition t3_micro := record "t3.micro" 2 1024 true.

Definition offeringsOf (locationType location : string) : pager ec2.OfferingsPage :=
  if String.eqb location "use1-az1"
  then LastPage [Some {| ec2.Offering.InstanceType := Some "m5.large";
                         ec2.Offering.Location := Some "use1-az1" |}]
  else LastPage [].

Definition sample : Selector :=
  {| EC2 := {| ec2.instanceTypeOfferings := offeringsOf;
               ec2.instanceTypes :=
                 NextPage [Some t3_micro; Some m5_xlarge] (LastPage [Some m5_large]) |} |}.

(** A catalog in which the name t3.micro comes on two pages: first
    without burstable performance, then with it. *)
Definition repeated : Selector :=
  {| EC2 := {| ec2.instanceTypeOfferings := offeringsOf;
               ec2.instanceTypes :=
                 NextPage [Some (record "t3.micro" 2 1024 false)]
                   (LastPage [Some (record "t3.micro" 2 1024 true)]) |} |}.

(** Providers whose first request fails. *)
Definition failingCatalog : Selector :=
  {| EC2 := {| ec2.instanceTypeOfferings := offeringsOf;
               ec2.instanceTypes :=
                 RequestFails (ServiceError "RequestLimitExceeded") |} |}.

Definition failingOfferings : Selector :=
  {| EC2 := {| ec2.instanceTypeOfferings :=
                 λ _ _, RequestFails (ServiceError "RequestLimitExceeded");
               ec2.instanceTypes := LastPage [Some m5_large] |} |}.

(** Four vCPUs wanted, and a bool filter on the network performance,
    which the instance derives as an [*int]: the type switches have no
    comparator for the two. *)
Definition mistyped : Filters :=
  setFilter networkPerformance (FBool (Some true))
    (setFilter vcpusRange (range 4 4) noFilters).

Definition burstableOnly : Filters :=
  setFilter burstable (FBool (Some true)) noFilters.

(** The sample catalog restricted to zone use1-az1, in a region that is
    not read. *)
Definition inZone : Filters :=
  withRegion (Some "eu-west-1") (withLocation (Some "use1-az1") None noFilters).

End Reference.

(* ================================================================== *)
(** * Location classification *)
(* ================================================================== *)

Section regexp_facts.

Lemma matches_at_true (r : regex) (p : pos) :
  matches_at r p = true ↔ run r p ≠ [].
Proof. unfold matches_at. destruct (run r p); split; congruence. Qed.

Lemma flat_map_nonempty {A B : Type} (f : A → list B) (l : list A) :
  flat_map f l ≠ [] ↔ ∃ x, x ∈ l ∧ f x ≠ [].
Proof.
  induction l as [|a l IH]; simpl.
  - split; [congruence | intros (x & Hx & _); inversion Hx].
  - split.
    + intros Hne. destruct (f a) eqn:Hfa.
      * simpl in Hne. apply IH in Hne as (x & Hx & Hfx).
        exists x. split; [by right | done].
      * exists a. split; [by left | congruence].
    + intros (x & Hx & Hfx) Happ. apply app_eq_nil in Happ as [Ha Hl].
      apply elem_of_cons in Hx as [-> | Hx]; [done |].
      apply IH; eauto.
Qed.

(** A pattern that starts with [^] matches at offset 0 or not at all. *)
Lemma search_Bol_later (r : regex) (s : string) :
  search (Cat Bol r) false s = false.
Proof. induction s as [|a s IH]; simpl; [done | by rewrite IH]. Qed.

Lemma MatchString_anchored (r : regex) (s : string) :
  MatchString (Cat Bol r) s = matches_at r (true, s).
Proof.
  unfold MatchString. destruct s as [|a s]; simpl.
  - unfold matches_at. simpl. rewrite app_nil_r. by rewrite orb_false_r.
  - rewrite search_Bol_later, orb_false_r.
    unfold matches_at. simpl. by rewrite app_nil_r.
Qed.

(** Loosening the tail of a concatenation keeps its matches. *)
Lemma run_Cat_mono (r r2 r2' : regex) :
  (∀ p, run r2 p ≠ [] → run r2' p ≠ []) →
  ∀ p, run (Cat r r2) p ≠ [] → run (Cat r r2') p ≠ [].
Proof.
  intros Hmono p. simpl. rewrite !flat_map_nonempty.
  intros (q & Hq & Hne). exists q. auto.
Qed.

(** A match of [[a-z]{3}[1-9]{1}...] has three letters, then a digit. *)
Lemma zone_id_shape (rest : regex) (b : bool) (s : string) :
  run (Cat (Rep 3 3 lower) (Cat (Rep 1 1 digit19) rest)) (b, s) ≠ [] →
  ∃ c1 c2 c3 c4 s',
    s = String c1 (String c2 (String c3 (String c4 s'))) ∧
    in_range "a" "z" c3 = true ∧ in_range "1" "9" c4 = true.
Proof.
  destruct s as [|c1 [|c2 [|c3 [|c4 s']]]]; simpl;
    repeat (match goal with
            | |- context [if in_range ?lo ?hi ?c then _ else _] =>
                destruct (in_range lo hi c) eqn:?; simpl
            end); try congruence.
  intros _. by exists c1, c2, c3, c4, s'.
Qed.

(** A match of [[a-z]{2,3}\-...] has a dash in third place, or a letter
    in third place and a dash in fourth place. *)
Lemma region_head_shape (rest : regex) (b : bool) (s : string) :
  run (Cat (Rep 2 3 lower) (Cat (Chr "-") rest)) (b, s) ≠ [] →
  ∃ c1 c2 c3 s',
    s = String c1 (String c2 (String c3 s')) ∧
    (c3 = "-"%char ∨
     (in_range "a" "z" c3 = true ∧ ∃ s'', s' = String "-" s'')).
Proof.
  destruct s as [|c1 [|c2 [|c3 s']]]; simpl;
    repeat (match goal with
            | |- context [if in_range ?lo ?hi ?c then _ else _] =>
                destruct (in_range lo hi c) eqn:?; simpl
            end); try congruence.
  - destruct (Ascii.eqb_spec c3 "-") as [-> | Hc3]; simpl.
    + intros _. exists c1, c2, "-"%char, s'. auto.
    + destruct s' as [|c4 s'']; simpl; [congruence |].
      destruct (Ascii.eqb_spec c4 "-") as [-> | Hc4]; simpl; [| congruence].
      intros _. exists c1, c2, c3, (String "-" s''). split; [done |].
      right. eauto.
  - destruct (Ascii.eqb_spec c3 "-") as [-> | Hc3]; simpl; [| congruence].
    intros _. exists c1, c2, "-"%char, s'. auto.
Qed.

Lemma zone_id_excludes_region_head (rest1 rest2 : regex) (s : string) :
  run (Cat (Rep 3 3 lower) (Cat (Rep 1 1 digit19) rest1)) (true, s) ≠ [] →
  run (Cat (Rep 2 3 lower) (Cat (Chr "-") rest2)) (true, s) = [].
Proof.
  intros Hid.
  destruct (run (Cat (Rep 2 3 lower) (Cat (Chr "-") rest2)) (true, s)) eqn:Hrun;
    [done | exfalso].
  apply zone_id_shape in Hid as (c1 & c2 & c3 & c4 & s' & -> & Hc3 & Hc4).
  assert (Hne : run (Cat (Rep 2 3 lower) (Cat (Chr "-") rest2))
                  (true, String c1 (String c2 (String c3 (String c4 s')))) ≠ [])
    by (rewrite Hrun; congruence).
  apply region_head_shape in Hne as (d1 & d2 & d3 & t & Heq & Hcase).
  injection Heq as <- <- <- <-.
  destruct Hcase as [-> | (_ & s'' & Hs'')].
  - vm_compute in Hc3. congruence.
  - injection Hs'' as -> _. vm_compute in Hc4. congruence.
Qed.

Lemma zone_id_not_zone_name (zone : string) :
  MatchString zoneIDRegex zone = true → MatchString zoneNameRegex zone = false.
Proof.
  unfold zoneIDRegex, zoneNameRegex, cat. cbn [foldr].
  rewrite !MatchString_anchored. rewrite matches_at_true.
  intros Hid. unfold matches_at.
  by rewrite (zone_id_excludes_region_head _ _ _ Hid).
Qed.

Lemma zone_id_not_region (zone : string) :
  MatchString zoneIDRegex zone = true → MatchString regionNameRegex zone = false.
Proof.
  unfold zoneIDRegex, regionNameRegex, cat. cbn [foldr].
  rewrite !MatchString_anchored. rewrite matches_at_true.
  intros Hid. unfold matches_at.
  by rewrite (zone_id_excludes_region_head _ _ _ Hid).
Qed.

(** The region pattern is the zone-name pattern without its last letter
    and its end anchor. *)
Lemma zone_name_is_region (zone : string) :
  MatchString zoneNameRegex zone = true → MatchString regionNameRegex zone = true.
Proof.
  unfold zoneNameRegex, regionNameRegex, cat. cbn [foldr].
  rewrite !MatchString_anchored, !matches_at_true.
  do 6 (apply run_Cat_mono; intros ?).
  intros _. simpl. congruence.
Qed.

Lemma locationTypeOf_None (zone : string) :
  locationTypeOf zone = None ↔
  MatchString zoneIDRegex zone = false ∧
  MatchString zoneNameRegex zone = false ∧
  MatchString regionNameRegex zone = false.
Proof.
  unfold locationTypeOf.
  destruct (MatchString zoneIDRegex zone), (MatchString zoneNameRegex zone),
    (MatchString regionNameRegex zone); split; intros; try done;
    repeat match goal with H : _ ∧ _ |- _ => destruct H end; done.
Qed.

End regexp_facts.

(** C6, as amended.  Of the three location patterns the zone-id pattern
    excludes the other two, while every string that matches the zone-name
    pattern also matches the region pattern (which has no end anchor).
    The classification is nevertheless a function of the string: the
    patterns are tried in the order zone-id, zone-name, region, and the
    first that matches gives the location type. *)
Theorem location_patterns_ordered (zone : string) :
  (MatchString zoneIDRegex zone = true →
     MatchString zoneNameRegex zone = false ∧
     MatchString regionNameRegex zone = false ∧
     locationTypeOf zone = Some zoneIDLocationType) ∧
  (MatchString zoneNameRegex zone = true →
     MatchString zoneIDRegex zone = false ∧
     MatchString regionNameRegex zone = true ∧
     locationTypeOf zone = Some zoneNameLocationType) ∧
  (MatchString regionNameRegex zone = true →
     MatchString zoneIDRegex zone = false ∧
     locationTypeOf zone =
       Some (if MatchString zoneNameRegex zone
             then zoneNameLocationType else regionNameLocationType)).
Proof.
  pose proof (zone_id_not_zone_name zone) as Hin.
  pose proof (zone_id_not_region zone) as Hir.
  pose proof (zone_name_is_region zone) as Hnr.
  unfold locationTypeOf.
  destruct (MatchString zoneIDRegex zone), (MatchString zoneNameRegex zone),
    (MatchString regionNameRegex zone); repeat split; intros; try done;
    try (by specialize (Hin eq_refl)); try (by specialize (Hir eq_refl));
    try (by specialize (Hnr eq_refl)).
Qed.

(** C6, as stated, fails: us-east-1a is not empty and matches both the
    zone-name pattern and the region pattern. *)
Lemma location_patterns_overlap :
  String.eqb "us-east-1a" "" = false ∧
  MatchString zoneNameRegex "us-east-1a" = true ∧
  MatchString regionNameRegex "us-east-1a" = true.
Proof. vm_compute. repeat split. Qed.

(* ================================================================== *)
(** * Location membership and the empty location *)
(* ================================================================== *)

Lemma Retrieve_empty (itf : Selector) :
  RetrieveInstanceTypesSupportedInLocation itf "" = (Ok None, []).
Proof. reflexivity. Qed.

Lemma Retrieve_invalid (itf : Selector) (zone : string) :
  zone ≠ "" → locationTypeOf zone = None →
  RetrieveInstanceTypesSupportedInLocation itf zone = (Err (InvalidLocation zone), []).
Proof.
  intros Hne Hnone. unfold RetrieveInstanceTypesSupportedInLocation.
  destruct (String.eqb_spec zone ""); [done |]. by rewrite Hnone.
Qed.

(** C3.  The location check of a candidate passes iff the index is absent
    (nil) or the candidate's name is a key of the index.  For the empty
    location string the resolver returns the absent index without sending
    a request, so no name fails the check; an index that was produced and
    is empty is another value, and every name fails the check against it. *)
Theorem location_membership (itf : Selector)
    (index : option (gmap string string)) (name : string) :
  (isSupportedInLocation index name = true ↔
     index = None ∨ ∃ offerings, index = Some offerings ∧ is_Some (offerings !! name)) ∧
  RetrieveInstanceTypesSupportedInLocation itf "" = (Ok None, []) ∧
  isSupportedInLocation None name = true ∧
  isSupportedInLocation (Some ∅) name = false.
Proof.
  split; [| repeat split; unfold isSupportedInLocation; by rewrite ?lookup_empty].
  unfold isSupportedInLocation. destruct index as [offerings |].
  - destruct (offerings !! name) as [loc |] eqn:Hlookup; split.
    + intros _. right. exists offerings. split; [done |]. rewrite Hlookup. by exists loc.
    + done.
    + done.
    + intros [Hnone | (m & Heq & His)]; [done |].
      injection Heq as <-. rewrite Hlookup in His. by destruct His.
  - split; [by left | done].
Qed.

(* ================================================================== *)
(** * Truncation *)
(* ================================================================== *)

Lemma slice_to_ok {A : Type} (s : list A) (hi : Z) :
  0 ≤ hi ≤ Z.of_nat (length s) → slice_to s hi = Ok (take (Z.to_nat hi) s).
Proof.
  intros [Hlo Hhi]. unfold slice_to.
  destruct (Z.ltb_spec hi 0); [lia |].
  destruct (Z.ltb_spec (Z.of_nat (length s)) hi); [lia | done].
Qed.

Lemma truncateResults_count {A : Type} (itf : Selector) (n : nat) (s : list A) :
  truncateResults itf (Some (Z.of_nat n)) s = Ok (take n s).
Proof.
  unfold truncateResults.
  destruct (Z.ltb_spec (Z.of_nat (length s)) (Z.of_nat n)) as [Hlt | Hge].
  - rewrite slice_to_ok by lia. rewrite Nat2Z.id, firstn_all.
    f_equal. symmetry. apply take_ge. lia.
  - rewrite slice_to_ok by lia. by rewrite Nat2Z.id.
Qed.

(** C4.  For a sequence [sorted] and a requested maximum count [N] (a
    count: not negative): without a maximum the sequence is returned
    unchanged; a maximum above the length returns the whole sequence; the
    maximum 0 returns the empty sequence; and in every case the result is
    the first [N] entries, a prefix of [sorted], so in the same order. *)
Theorem truncateResults_first_N {A : Type} (itf : Selector) (sorted : list A) (N : Z) :
  0 ≤ N →
  truncateResults itf None sorted = Ok sorted ∧
  (Z.of_nat (length sorted) < N → truncateResults itf (Some N) sorted = Ok sorted) ∧
  truncateResults itf (Some 0) sorted = Ok [] ∧
  truncateResults itf (Some N) sorted = Ok (take (Z.to_nat N) sorted) ∧
  take (Z.to_nat N) sorted ++ drop (Z.to_nat N) sorted = sorted.
Proof.
  intros HN. split; [done |].
  pose proof (truncateResults_count itf (Z.to_nat N) sorted) as Hcount.
  rewrite Z2Nat.id in Hcount by done.
  repeat split.
  - intros Hlt. rewrite Hcount. f_equal. apply take_ge. lia.
  - apply (truncateResults_count itf 0 sorted).
  - done.
  - apply take_drop.
Qed.

Lemma truncateResults_negative {A : Type} (itf : Selector) (m : Z) (s : list A) :
  m < 0 → truncateResults itf (Some m) s = Panic.
Proof.
  intros Hm. unfold truncateResults, slice_to.
  destruct (Z.ltb_spec (Z.of_nat (length s)) m); [lia |].
  destruct (Z.ltb_spec m 0); [done | lia].
Qed.

Section entry_points.
Context {helpers : Helpers} {order : MapOrder}.

(** C10.  [truncateResults] returns a value only for a maximum that is
    not negative: on a negative [MaxResults] the slice expression has a
    negative upper index and panics, whatever the sequence; so
    [FilterVerbose], [FilterWithOutput] and [Filter] panic whenever
    [rawFilter] has returned its slice. *)
Theorem negative_MaxResults_panics (itf : Selector) (filters : Filters) (m : Z)
    (found : list ec2.InstanceTypeInfo) (t : list event)
    (outputFn : list ec2.InstanceTypeInfo → list string) :
  m < 0 →
  MaxResults filters = Some m →
  rawFilter itf filters = (Ok found, t) →
  (∀ s : list ec2.InstanceTypeInfo, truncateResults itf (Some m) s = Panic) ∧
  FilterVerbose itf filters = (Panic, t) ∧
  FilterWithOutput itf filters outputFn = (Panic, t) ∧
  Filter itf filters = (Panic, t).
Proof.
  intros Hm Hmax Hraw.
  assert (Hpanic : ∀ s : list ec2.InstanceTypeInfo,
             truncateResults itf (Some m) s = Panic)
    by (intros s; by apply truncateResults_negative).
  unfold Filter, FilterWithOutput, FilterVerbose.
  rewrite Hraw, Hmax, Hpanic. done.
Qed.

(** C7.  A location that is not empty and matches none of the three
    patterns makes the resolver fail with the invalid-location error;
    [rawFilter] and the three entry points return that error, and no
    request has been sent to the availability provider or the catalog
    provider. *)
Theorem invalid_location_fails_before_any_request (itf : Selector)
    (filters : Filters) (zone : string)
    (outputFn : list ec2.InstanceTypeInfo → list string) :
  locationOf filters = zone →
  String.eqb zone "" = false →
  MatchString zoneIDRegex zone = false →
  MatchString zoneNameRegex zone = false →
  MatchString regionNameRegex zone = false →
  RetrieveInstanceTypesSupportedInLocation itf zone = (Err (InvalidLocation zone), []) ∧
  rawFilter itf filters = (Err (InvalidLocation zone), []) ∧
  FilterVerbose itf filters = (Err (InvalidLocation zone), []) ∧
  FilterWithOutput itf filters outputFn = (Err (InvalidLocation zone), []) ∧
  Filter itf filters = (Err (InvalidLocation zone), []).
Proof.
  intros Hloc Hne Hid Hname Hregion.
  assert (Hretrieve : RetrieveInstanceTypesSupportedInLocation itf zone
                      = (Err (InvalidLocation zone), [])).
  { apply Retrieve_invalid.
    - by apply String.eqb_neq.
    - by apply locationTypeOf_None. }
  assert (Hraw : rawFilter itf filters = (Err (InvalidLocation zone), [])).
  { unfold rawFilter. by rewrite Hloc, Hretrieve. }
  unfold Filter, FilterWithOutput, FilterVerbose. by rewrite Hraw.
Qed.

End entry_points.

Lemma truncateResults_first_N_witness :
  0 ≤ 1 ∧
  truncateResults Reference.sample (Some 1) ["m5.large"; "t3.micro"] = Ok ["m5.large"].
Proof.
  split; [lia |].
  apply (truncateResults_first_N Reference.sample ["m5.large"; "t3.micro"] 1).
  lia.
Defined.

Lemma negative_MaxResults_panics_witness :
  -1 < 0 ∧
  @FilterVerbose Reference.helpers Reference.sourceOrder Reference.sample
    (Reference.withLocation None (Some (-1)) Reference.noFilters)
  = (Panic, [DescribeInstanceTypesRequest; DescribeInstanceTypesRequest]).
Proof.
  split; [lia |].
  eapply (@negative_MaxResults_panics Reference.helpers Reference.sourceOrder
            Reference.sample
            (Reference.withLocation None (Some (-1)) Reference.noFilters) (-1)
            _ _ Reference.simpleOutput);
    [lia | reflexivity | vm_compute; reflexivity].
Defined.

Lemma invalid_location_witness :
  @Filter Reference.helpers Reference.sourceOrder Reference.sample
    (Reference.withLocation (Some "not-a-zone") None Reference.noFilters)
  = (Err (InvalidLocation "not-a-zone"), []).
Proof.
  apply (@invalid_location_fails_before_any_request
           Reference.helpers Reference.sourceOrder Reference.sample
           (Reference.withLocation (Some "not-a-zone") None Reference.noFilters)
           "not-a-zone" Reference.simpleOutput);
    vm_compute; reflexivity.
Defined.

(* ================================================================== *)
(** * Filter dispatch *)
(* ================================================================== *)

Section dispatch.
Context {helpers : Helpers}.

Lemma forallb_Permutation {A : Type} (f : A → bool) (l l' : list A) :
  l ≡ₚ l' → forallb f l = forallb f l'.
Proof.
  induction 1 as [| x l l' _ IH | x y l | l l' l'' _ IH1 _ IH2]; simpl.
  - done.
  - by rewrite IH.
  - destruct (f x), (f y); done.
  - by rewrite IH1.
Qed.

(** When no error comes out, the boolean is the conjunction over the
    entries, whatever their order. *)
Lemma executeFilters_no_error (itf : Selector) (entries : list (string * filterPair))
    (instanceType : string) (b : bool) :
  executeFilters itf entries instanceType = (b, None) → b = allSatisfied entries.
Proof.
  induction entries as [| [filterName [fv sv]] rest IH]; simpl.
  - congruence.
  - unfold satisfied, comparatorPasses; simpl.
    destruct (IsNil fv) eqn:Hnil; simpl; [exact IH |].
    destruct fv, sv; simpl in *; try congruence;
      match goal with
      | |- context [negb ?c] => destruct c; simpl; [exact IH | congruence]
      end.
Qed.

Lemma executeFilters_accepts (itf : Selector) (entries : list (string * filterPair))
    (instanceType : string) :
  executeFilters itf entries instanceType = (true, None) ↔ allSatisfied entries = true.
Proof.
  split.
  - intros Hrun. symmetry. by eapply executeFilters_no_error.
  - induction entries as [| [filterName [fv sv]] rest IH]; simpl; [done |].
    unfold satisfied, comparatorPasses; simpl.
    destruct (IsNil fv) eqn:Hnil; simpl; [exact IH |].
    destruct fv, sv; simpl in *; try congruence;
      match goal with
      | |- context [negb ?c] => destruct c; simpl; [exact IH | congruence]
      end.
Qed.

(** The entry of an absent filter is skipped. *)
Lemma executeFilters_skip (itf : Selector) (before after : list (string * filterPair))
    (filterName : string) (fPair : filterPair) (instanceType : string) :
  IsNil (filterValue fPair) = true →
  executeFilters itf (before ++ (filterName, fPair) :: after) instanceType
  = executeFilters itf (before ++ after) instanceType.
Proof.
  intros Hnil. induction before as [| [n [fv sv]] before IH]; simpl.
  - by rewrite Hnil.
  - rewrite IH. done.
Qed.

(** An error comes out only of a mismatched entry. *)
Lemma executeFilters_error (itf : Selector) (entries : list (string * filterPair))
    (instanceType : string) (b : bool) (e : error) :
  executeFilters itf entries instanceType = (b, Some e) →
  b = false ∧ ∃ filterName fPair,
    (filterName, fPair) ∈ entries ∧ mismatched fPair = true ∧
    (e = UnableToProcess filterName instanceType ∨
     e = NoFilterHandler filterName instanceType).
Proof.
  induction entries as [| [filterName [fv sv]] rest IH]; simpl; [congruence |].
  assert (Hrest : executeFilters itf rest instanceType = (b, Some e) →
            b = false ∧ ∃ n p, (n, p) ∈ (filterName, {| filterValue := fv; instanceSpec := sv |}) :: rest
              ∧ mismatched p = true
              ∧ (e = UnableToProcess n instanceType ∨ e = NoFilterHandler n instanceType)).
  { intros H. destruct (IH H) as (Hb & n & p & Hin & Hm & He).
    split; [done |]. exists n, p. split; [by right | done]. }
  destruct (IsNil fv) eqn:Hnil; [exact Hrest |].
  destruct fv, sv; simpl in *;
    try match goal with
      | |- context [negb ?c] => destruct c; simpl; [exact Hrest | congruence]
      end;
    intros [= <- <-]; (split; [done |]);
    eexists _, _; (split; [by left |]); unfold mismatched; simpl;
    rewrite ?Hnil; simpl; auto.
Qed.

(** Making filters absent keeps a satisfied table satisfied. *)
Lemma allSatisfied_relaxed (relaxed entries : list (string * filterPair)) :
  Forall2 (λ e' e, instanceSpec e'.2 = instanceSpec e.2 ∧
                   (filterValue e'.2 = filterValue e.2 ∨
                    IsNil (filterValue e'.2) = true)) relaxed entries →
  allSatisfied entries = true → allSatisfied relaxed = true.
Proof.
  unfold allSatisfied.
  induction 1 as [| [n' [fv' sv']] [n [fv sv]] relaxed entries [Hspec Hfilter] _ IH];
    simpl in *; [done |].
  rewrite !andb_true_iff. intros [Hhead Htail]. split; [| by apply IH].
  subst sv'. destruct Hfilter as [-> | Hnil]; [done |].
  unfold satisfied. simpl. by rewrite Hnil.
Qed.

End dispatch.

(* ================================================================== *)
(** * The candidate aggregator *)
(* ================================================================== *)

Section aggregation.
Context {helpers : Helpers} {order : MapOrder}.

Implicit Types (itf : Selector) (filters : Filters)
  (index : option (gmap string string)) (st : captured)
  (records : ec2.InstanceTypesPage).

(** ** The page callback *)

Lemma callback_app itf filters index records1 records2 st :
  instanceTypesCallback itf filters index (records1 ++ records2) st
  = match instanceTypesCallback itf filters index records1 st with
    | Continue st' => instanceTypesCallback itf filters index records2 st'
    | Stop st' => Stop st'
    | Crash => Crash
    end.
Proof.
  revert st. induction records1 as [| p records1 IH]; intros st; simpl; [done |].
  destruct p as [info |]; simpl; [| done].
  destruct (ec2.InstanceType info) as [name |]; simpl; [| done].
  destruct (filterToInstanceSpecMappingPairs filters info) as [pairs |]; simpl; [| done].
  destruct (executeFilters itf (mapRange (ranges st) pairs) name) as [b [e |]]; [done |].
  apply IH.
Qed.

Lemma callback_app_Continue itf filters index records1 records2 st st' :
  instanceTypesCallback itf filters index (records1 ++ records2) st = Continue st' →
  ∃ st1, instanceTypesCallback itf filters index records1 st = Continue st1 ∧
         instanceTypesCallback itf filters index records2 st1 = Continue st'.
Proof.
  rewrite callback_app.
  destruct (instanceTypesCallback itf filters index records1 st) as [st1 | st1 |];
    [eauto | done | done].
Qed.

Lemma callback_Stop itf filters index records st st' :
  instanceTypesCallback itf filters index records st = Stop st' →
  is_Some (innerErr st').
Proof.
  revert st. induction records as [| p records IH]; intros st; simpl; [done |].
  destruct p as [info |]; simpl; [| done].
  destruct (ec2.InstanceType info) as [name |]; simpl; [| done].
  destruct (filterToInstanceSpecMappingPairs filters info) as [pairs |]; simpl; [| done].
  destruct (executeFilters itf (mapRange (ranges st) pairs) name) as [b [e |]].
  - intros [= <-]. simpl. eauto.
  - apply IH.
Qed.

Lemma accepts_executeFilters itf filters info pairs n name b :
  filterToInstanceSpecMappingPairs filters info = Some pairs →
  executeFilters itf (mapRange n pairs) name = (b, None) →
  b = accepts filters info.
Proof.
  intros Hpairs Hrun. unfold accepts. rewrite Hpairs.
  apply executeFilters_no_error in Hrun. rewrite Hrun.
  unfold allSatisfied. apply forallb_Permutation, mapRange_perm.
Qed.

(** After a page loop that ran to its end, a name is a candidate iff the
    last record of that name passed the location check and the filters;
    the names the loop did not meet are as before. *)
Lemma callback_Continue itf filters index records st st' :
  instanceTypesCallback itf filters index records st = Continue st' →
  (∀ name,
     instanceTypeCandidates st' !! name
     = match lastNamed name records with
       | Some info =>
           if isSupportedInLocation index name && accepts filters info
           then Some info else None
       | None => instanceTypeCandidates st !! name
       end) ∧
  ranges st' = (ranges st + length records)%nat ∧
  (innerErr st = None → innerErr st' = None).
Proof.
  revert st. induction records as [| p records IH]; intros st; simpl.
  - intros [= <-]. split; [done | split; [simpl; lia | done]].
  - destruct p as [info |]; simpl; [| done].
    destruct (ec2.InstanceType info) as [name0 |] eqn:Hname0; simpl; [| done].
    destruct (filterToInstanceSpecMappingPairs filters info) as [pairs |] eqn:Hpairs;
      simpl; [| done].
    destruct (executeFilters itf (mapRange (ranges st) pairs) name0) as [b [e |]] eqn:Hrun;
      [done |].
    apply (accepts_executeFilters _ _ _ _ _ _ _ Hpairs) in Hrun. subst b.
    intros Hrest. apply IH in Hrest as (Hlookup & Hranges & Herr). simpl in *.
    split; [| split; [lia | auto]].
    intros name. rewrite Hlookup.
    destruct (lastNamed name records) as [later |]; [done |].
    rewrite ?Hname0.
    destruct (decide (name0 = name)) as [-> | Hne].
    + rewrite bool_decide_eq_true_2 by done.
      destruct (isSupportedInLocation index name), (accepts filters info); simpl;
        by rewrite ?lookup_delete_eq, ?lookup_insert_eq.
    + rewrite bool_decide_eq_false_2 by congruence.
      destruct (isSupportedInLocation index name0), (accepts filters info); simpl;
        by rewrite ?lookup_delete_ne, ?lookup_insert_ne by done.
Qed.

(** ** The paging primitive under the callback *)

Lemma eachPage_pagesThen {P S : Type} (req : event) (fn : P → S → step S)
    (loop : list P → S → step S) (pre : list P) (rest : pager P) (s s' : S) :
  (∀ p ps s, loop (p :: ps) s
             = match fn p s with
               | Continue s1 => loop ps s1
               | other => other
               end) →
  (∀ s, loop [] s = Continue s) →
  loop pre s = Continue s' →
  eachPage req (pagesThen pre rest) fn s
  = ((eachPage req rest fn s').1,
     replicate (length pre) req ++ (eachPage req rest fn s').2).
Proof.
  intros Hcons Hnil. revert s.
  induction pre as [| p pre IH]; intros s; simpl.
  - rewrite Hnil. intros [= <-]. by destruct (eachPage req rest fn s).
  - rewrite Hcons. destruct (fn p s) as [s1 | s1 |]; [| done | done].
    intros Hloop. rewrite (IH _ Hloop).
    by destruct (eachPage req rest fn s').
Qed.


Lemma callback_pages itf filters index (p : ec2.InstanceTypesPage)
    (ps : list ec2.InstanceTypesPage) st :
  instanceTypesCallback itf filters index (concat (p :: ps)) st
  = match instanceTypesCallback itf filters index p st with
    | Continue st1 => instanceTypesCallback itf filters index (concat ps) st1
    | other => other
    end.
Proof.
  simpl. rewrite callback_app.
  by destruct (instanceTypesCallback itf filters index p st).
Qed.

(** A catalog that arrives whole, under a callback that runs to the end
    of every page. *)
Lemma eachPage_servePages itf filters index (req : event)
    (p : ec2.InstanceTypesPage) (ps : list ec2.InstanceTypesPage) st st' :
  instanceTypesCallback itf filters index (concat (p :: ps)) st = Continue st' →
  eachPage req (servePages p ps) (instanceTypesCallback itf filters index) st
  = (Some (st', None), replicate (S (length ps)) req).
Proof.
  revert p st. induction ps as [| q ps IH]; intros p st.
  - simpl. rewrite app_nil_r. by intros ->.
  - rewrite callback_pages. cbn [servePages eachPage].
    destruct (instanceTypesCallback itf filters index p st) as [st1 | st1 |];
      [| done | done].
    intros Hrest. by rewrite (IH _ _ Hrest).
Qed.

(** Paging ends without an error of either kind only if the catalog
    arrived whole and the callback ran to the end of every page. *)
Lemma eachPage_complete itf filters index (req : event)
    (pages : pager ec2.InstanceTypesPage) st st' (t : list event) :
  eachPage req pages (instanceTypesCallback itf filters index) st
  = (Some (st', None), t) →
  innerErr st' = None →
  ∃ p ps, pages = servePages p ps ∧
    instanceTypesCallback itf filters index (concat (p :: ps)) st = Continue st' ∧
    t = replicate (S (length ps)) req.
Proof.
  revert st t. induction pages as [e | p | p rest IH]; intros st t; simpl.
  - done.
  - destruct (instanceTypesCallback itf filters index p st) as [s1 | s1 |] eqn:Hp.
    + intros [= <- <-] _. exists p, []. simpl. by rewrite app_nil_r.
    + intros [= <- <-] Hnone. apply callback_Stop in Hp as [e He]. congruence.
    + done.
  - destruct (instanceTypesCallback itf filters index p st) as [s1 | s1 |] eqn:Hp.
    + destruct (eachPage req rest (instanceTypesCallback itf filters index) s1)
        as [r t'] eqn:Hrest.
      intros [= -> <-] Hnone.
      destruct (IH _ _ Hrest Hnone) as (q & qs & -> & Hloop & ->).
      exists p, (q :: qs). split; [done |]. split; [| done].
      rewrite callback_app, Hp. exact Hloop.
    + intros [= <- <-] Hnone. apply callback_Stop in Hp as [e He]. congruence.
    + done.
Qed.

(** ** [rawFilter], end to end *)

Lemma rawFilter_Ok itf filters (found : list ec2.InstanceTypeInfo) (t : list event) :
  rawFilter itf filters = (Ok found, t) →
  ∃ index t1 p ps st,
    RetrieveInstanceTypesSupportedInLocation itf (locationOf filters) = (Ok index, t1) ∧
    ec2.instanceTypes (EC2 itf) = servePages p ps ∧
    instanceTypesCallback itf filters index (concat (p :: ps)) noCandidates
    = Continue st ∧
    t = t1 ++ replicate (S (length ps)) DescribeInstanceTypesRequest ∧
    found = collected st.
Proof.
  unfold rawFilter, ec2.DescribeInstanceTypesPages.
  destruct (RetrieveInstanceTypesSupportedInLocation itf (locationOf filters))
    as [[index | e |] t1] eqn:Hretrieve; [| done | done].
  destruct (eachPage DescribeInstanceTypesRequest (ec2.instanceTypes (EC2 itf))
              (instanceTypesCallback itf filters index) noCandidates)
    as [[[st [e |]] |] t2] eqn:Hpages; [done | | done].
  destruct (innerErr st) as [e |] eqn:Herr; [done |].
  intros [= <- <-].
  destruct (eachPage_complete _ _ _ _ _ _ _ _ Hpages Herr) as (p & ps & Hserve & Hloop & ->).
  by exists index, t1, p, ps, st.
Qed.

Lemma rawFilter_servePages itf filters index (t1 : list event)
    (p : ec2.InstanceTypesPage) (ps : list ec2.InstanceTypesPage) st :
  RetrieveInstanceTypesSupportedInLocation itf (locationOf filters) = (Ok index, t1) →
  ec2.instanceTypes (EC2 itf) = servePages p ps →
  instanceTypesCallback itf filters index (concat (p :: ps)) noCandidates
  = Continue st →
  rawFilter itf filters
  = (Ok (collected st), t1 ++ replicate (S (length ps)) DescribeInstanceTypesRequest).
Proof.
  intros Hretrieve Hserve Hloop.
  unfold rawFilter, ec2.DescribeInstanceTypesPages.
  rewrite Hretrieve, Hserve, (eachPage_servePages _ _ _ _ _ _ _ _ Hloop).
  apply callback_Continue in Hloop as (_ & _ & Herr).
  by rewrite (Herr eq_refl).
Qed.

Lemma elem_of_collected st (info : ec2.InstanceTypeInfo) :
  info ∈ collected st ↔ ∃ name, instanceTypeCandidates st !! name = Some info.
Proof.
  unfold collected, sortInstanceTypeInfo.
  rewrite merge_sort_Permutation, mapRange_perm, list_elem_of_fmap.
  split.
  - intros ([name info'] & -> & Hin). exists name. by apply elem_of_map_to_list.
  - intros (name & Hlookup). exists (name, info). split; [done |].
    by apply elem_of_map_to_list.
Qed.

Lemma lastNamed_name (name : string) records (info : ec2.InstanceTypeInfo) :
  lastNamed name records = Some info →
  ec2.InstanceType info = Some name ∧ Some info ∈ records.
Proof.
  induction records as [| p records IH]; simpl; [done |].
  destruct (lastNamed name records) as [later |].
  - intros [= <-]. destruct (IH eq_refl) as [Hname Hin]. split; [done | by right].
  - destruct p as [first |]; simpl; [| done].
    destruct (bool_decide_reflect (ec2.InstanceType first = Some name)); [| done].
    intros [= <-]. split; [done | by left].
Qed.


(** ** AND composition *)

Lemma accepts_relaxed (filters' filters : Filters) (info : ec2.InstanceTypeInfo) :
  relaxes filters' filters →
  accepts filters info = true → accepts filters' info = true.
Proof.
  unfold relaxes, filterFields, accepts, filterToInstanceSpecMappingPairs.
  intros Hrelax.
  repeat match goal with
         | H : Forall2 _ (_ :: _) (_ :: _) |- _ =>
             apply Forall2_cons_1 in H as [? H]
         end.
  destruct (ec2.ProcessorInfo info); cbn [mbind option_bind]; [| done].
  destruct (ec2.VCpuInfo info); cbn [mbind option_bind]; [| done].
  destruct (ec2.MemoryInfo info); cbn [mbind option_bind]; [| done].
  destruct (ec2.PlacementGroupInfo info); cbn [mbind option_bind]; [| done].
  destruct (ec2.NetworkInfo info); cbn [mbind option_bind]; [| done].
  apply allSatisfied_relaxed.
  repeat (constructor; [by split |]). constructor.
Qed.

(** C1.  For the entries of the filter table of a record, in any order
    of iteration: the record is accepted iff every entry has an absent
    filter or a filter its comparator passes; the entry of an absent
    (nil) filter does not change the result; replacing the filter of one
    entry by an absent one keeps an accepted record accepted; acceptance
    does not depend on the order of iteration; and a record accepted
    under a specification is accepted under every specification obtained
    by removing filters from it, so removing a filter can only grow the
    set of accepted records. *)
Theorem executeFilters_and_composition (itf : Selector) (instanceType : string)
    (before after : list (string * filterPair)) (filterName : string)
    (fPair : filterPair) (absent : filterVal)
    (filters' filters : Filters) (info : ec2.InstanceTypeInfo) :
  let entries := before ++ (filterName, fPair) :: after in
  let relaxed :=
    before ++ (filterName, {| filterValue := absent;
                              instanceSpec := instanceSpec fPair |}) :: after in
  (executeFilters itf entries instanceType = (true, None) ↔
     Forall (λ entry, IsNil (filterValue entry.2) = true ∨
                      comparatorPasses entry.2 = true) entries) ∧
  (IsNil (filterValue fPair) = true →
     executeFilters itf entries instanceType
     = executeFilters itf (before ++ after) instanceType) ∧
  (IsNil absent = true →
     executeFilters itf relaxed instanceType
     = executeFilters itf (before ++ after) instanceType) ∧
  (IsNil absent = true →
     executeFilters itf entries instanceType = (true, None) →
     executeFilters itf relaxed instanceType = (true, None)) ∧
  (∀ permuted, permuted ≡ₚ entries →
     (executeFilters itf permuted instanceType = (true, None) ↔
      executeFilters itf entries instanceType = (true, None))) ∧
  (relaxes filters' filters →
     accepts filters info = true → accepts filters' info = true).
Proof.
  intros entries relaxed.
  split; [| split; [| split; [| split; [| split]]]].
  - rewrite executeFilters_accepts. unfold allSatisfied. split.
    + intros Hall. apply Forall_forall. intros entry Hin.
      rewrite forallb_forall in Hall. specialize (Hall entry).
      rewrite <- list_elem_of_In in Hall. specialize (Hall Hin).
      unfold satisfied in Hall. by apply orb_true_iff in Hall.
    + intros Hall. apply forallb_forall. intros entry Hin.
      rewrite <- list_elem_of_In in Hin.
      rewrite Forall_forall in Hall. specialize (Hall entry Hin).
      unfold satisfied. by apply orb_true_iff.
  - intros Hnil. by apply executeFilters_skip.
  - intros Hnil. by apply executeFilters_skip.
  - intros Hnil. unfold entries, relaxed.
    rewrite !executeFilters_accepts. apply allSatisfied_relaxed.
    apply Forall2_app; [apply Forall_Forall2_diag, Forall_forall; auto |].
    constructor; [simpl; auto |].
    apply Forall_Forall2_diag, Forall_forall; auto.
  - intros permuted Hperm. rewrite !executeFilters_accepts. unfold allSatisfied.
    by rewrite (forallb_Permutation _ _ _ Hperm).
  - apply accepts_relaxed.
Qed.

(** ** Errors *)

Lemma rawFilter_Err itf filters outputFn (e : error) (t : list event) :
  rawFilter itf filters = (Err e, t) → failsWith itf filters outputFn e t.
Proof.
  intros Hraw. unfold failsWith, Filter, FilterWithOutput, FilterVerbose.
  by rewrite Hraw.
Qed.

(** C2.  When [executeFilters] returns an error on a record of a page
    (every record before it, on this page and the pages before, having
    been processed), the error is that of an entry of the record's table
    whose present filter and attribute have shapes without a comparator,
    and the callback stops the paging: the requests sent are those of the
    pages up to this one, whatever the rest of the page and of the catalog
    holds (further pages, or a request that would fail); [rawFilter] and
    the entry points return that error and no list. *)
Theorem dispatch_error_aborts itf filters outputFn index (t1 : list event)
    (pre : list ec2.InstanceTypesPage) (before after : ec2.InstanceTypesPage)
    (info : ec2.InstanceTypeInfo) (more : option (pager ec2.InstanceTypesPage))
    st (name : string) (pairs : list (string * filterPair)) (b : bool) (e : error) :
  RetrieveInstanceTypesSupportedInLocation itf (locationOf filters) = (Ok index, t1) →
  ec2.instanceTypes (EC2 itf)
  = pagesThen pre (onePage (before ++ Some info :: after) more) →
  instanceTypesCallback itf filters index (concat pre ++ before) noCandidates
  = Continue st →
  ec2.InstanceType info = Some name →
  filterToInstanceSpecMappingPairs filters info = Some pairs →
  executeFilters itf (mapRange (ranges st) pairs) name = (b, Some e) →
  (∃ filterName fPair,
     (filterName, fPair) ∈ pairs ∧ mismatched fPair = true ∧
     (e = UnableToProcess filterName name ∨ e = NoFilterHandler filterName name)) ∧
  failsWith itf filters outputFn e
    (t1 ++ replicate (S (length pre)) DescribeInstanceTypesRequest).
Proof.
  intros Hretrieve Hpages Hloop Hname Hpairs Hrun.
  split.
  { destruct (executeFilters_error _ _ _ _ _ Hrun) as (_ & n & p & Hin & Hbad & He).
    exists n, p. by rewrite mapRange_perm in Hin. }
  apply rawFilter_Err.
  apply callback_app_Continue in Hloop as (s_pre & Hpre & Hbefore).
  assert (Hpage : ∃ st', instanceTypesCallback itf filters index
                           (before ++ Some info :: after) s_pre = Stop st'
                         ∧ innerErr st' = Some e).
  { rewrite callback_app, Hbefore. simpl. rewrite Hname. simpl.
    rewrite Hpairs. simpl. rewrite Hrun. eauto. }
  destruct Hpage as (st' & Hpage & Herr).
  unfold rawFilter, ec2.DescribeInstanceTypesPages.
  rewrite Hretrieve, Hpages.
  rewrite (eachPage_pagesThen DescribeInstanceTypesRequest
             (instanceTypesCallback itf filters index)
             (λ pages s, instanceTypesCallback itf filters index (concat pages) s)
             pre _ noCandidates s_pre);
    [| intros; apply callback_pages | done | done].
  assert (Hstop : eachPage DescribeInstanceTypesRequest
                    (onePage (before ++ Some info :: after) more)
                    (instanceTypesCallback itf filters index) s_pre
                  = (Some (st', None), [DescribeInstanceTypesRequest])).
  { destruct more as [rest |]; simpl; by rewrite Hpage. }
  change ec2.InstanceTypesPage with (list (option ec2.InstanceTypeInfo)) in *.
  rewrite Hstop. simpl. rewrite Herr. by rewrite replicate_cons_app.
Qed.

(** C8, as amended.  An error that a paging primitive returns ends the
    filter operation, and no list is returned.  The error of the
    availability provider reaches the caller wrapped in the error of
    [RetrieveInstanceTypesSupportedInLocation], which names the call
    (describing instance type offerings); the error of the catalog
    provider reaches the caller as the provider returned it, with no
    context added. *)
Theorem paging_errors_abort itf filters outputFn (e : error) :
  (∀ (locationType : string) (offerings : gmap string string) (t : list event),
     String.eqb (locationOf filters) "" = false →
     locationTypeOf (locationOf filters) = Some locationType →
     ec2.DescribeInstanceTypeOfferingsPages (EC2 itf) locationType
       locationFilterKey (locationOf filters) offeringsCallback ∅
     = (Some (offerings, Some e), t) →
     failsWith itf filters outputFn (DescribeOfferingsFailed e) t) ∧
  (∀ index (t1 t2 : list event) st,
     RetrieveInstanceTypesSupportedInLocation itf (locationOf filters) = (Ok index, t1) →
     ec2.DescribeInstanceTypesPages (EC2 itf)
       (instanceTypesCallback itf filters index) noCandidates
     = (Some (st, Some e), t2) →
     failsWith itf filters outputFn e (t1 ++ t2)).
Proof.
  split.
  - intros locationType offerings t Hne Htype Hpages.
    apply rawFilter_Err. unfold rawFilter, RetrieveInstanceTypesSupportedInLocation.
    by rewrite Hne, Htype, Hpages.
  - intros index t1 t2 st Hretrieve Hpages.
    apply rawFilter_Err. unfold rawFilter.
    by rewrite Hretrieve, Hpages.
Qed.

(** The paging primitive returns an error exactly when a request fails
    before the callback has stopped the paging. *)
Lemma eachPage_error {P St : Type} (req : event) (pages : pager P)
    (fn : P → St → step St) (s s' : St) (e : error) (t : list event) :
  eachPage req pages fn s = (Some (s', Some e), t) →
  ∃ pre, pages = pagesThen pre (RequestFails e) ∧ t = replicate (S (length pre)) req.
Proof.
  revert s t. induction pages as [e' | p | p rest IH]; intros s t; simpl.
  - intros [= <- <- <-]. by exists [].
  - by destruct (fn p s).
  - destruct (fn p s) as [s1 | s1 |]; [| done | done].
    destruct (eachPage req rest fn s1) as [r t'] eqn:Hrest.
    intros [= -> <-]. destruct (IH _ _ Hrest) as (pre & -> & ->).
    by exists (p :: pre).
Qed.

(** ** The order of the result *)

Lemma less_leb (i j : ec2.InstanceTypeInfo) :
  less i j = String.leb (instanceTypeName i) (instanceTypeName j).
Proof.
  unfold less, strings_Compare, String.leb.
  by destruct (String.compare (instanceTypeName i) (instanceTypeName j)).
Qed.

Lemma lessR_le (i j : ec2.InstanceTypeInfo) :
  lessR i j ↔ String.le (instanceTypeName i) (instanceTypeName j).
Proof.
  unfold lessR, String.le. rewrite less_leb.
  destruct (String.leb _ _); simpl; split; done.
Qed.

Global Instance lessR_trans : Transitive lessR.
Proof.
  intros i j k. rewrite !lessR_le. intros Hij Hjk.
  by transitivity (instanceTypeName j).
Qed.

Global Instance lessR_total : Total lessR.
Proof.
  intros i j. rewrite !lessR_le. apply String.le_total.
Qed.

Lemma lessR_strict (i j : ec2.InstanceTypeInfo) :
  lessR i j → instanceTypeName i ≠ instanceTypeName j → nameBefore i j.
Proof.
  unfold lessR, less, nameBefore, strings_Compare. intros Hle Hne.
  destruct (String.compare (instanceTypeName i) (instanceTypeName j)) eqn:Hcmp;
    [| lia | done].
  by apply String.compare_eq_iff in Hcmp.
Qed.

Lemma sorted_strictly (l : list ec2.InstanceTypeInfo) :
  StronglySorted lessR l → NoDup (instanceTypeName <$> l) →
  StronglySorted nameBefore l.
Proof.
  induction 1 as [| i l Hsorted IH Hall]; intros Hnodup; [constructor |].
  rewrite fmap_cons in Hnodup. apply NoDup_cons in Hnodup as [Hfresh Hnodup].
  constructor; [by apply IH |].
  apply Forall_forall. intros j Hj. rewrite Forall_forall in Hall.
  apply lessR_strict; [by apply Hall |].
  intros Heq. apply Hfresh. rewrite Heq. by apply list_elem_of_fmap_2.
Qed.

(** A slice without repeated names has one ordered arrangement: every
    sort with this [less] returns what the merge sort returns. *)
Lemma sorted_by_name_unique (l sorted : list ec2.InstanceTypeInfo) :
  NoDup (instanceTypeName <$> l) →
  sorted ≡ₚ l → StronglySorted lessR sorted →
  sorted = sortInstanceTypeInfo l.
Proof.
  intros Hnodup Hperm Hsorted. unfold sortInstanceTypeInfo.
  apply (StronglySorted_unique_strong lessR); [| done | | ].
  - intros i j Hi Hj Hij Hji.
    assert (Hname : instanceTypeName i = instanceTypeName j).
    { apply lessR_le in Hij, Hji. by apply (anti_symm String.le). }
    rewrite Hperm in Hi. rewrite merge_sort_Permutation in Hj.
    apply list_elem_of_lookup in Hi as [n Hn], Hj as [m Hm].
    assert (n = m) as ->.
    { eapply NoDup_lookup; [exact Hnodup | |].
      - rewrite list_lookup_fmap, Hn. reflexivity.
      - rewrite list_lookup_fmap, Hm. simpl. by rewrite Hname. }
    congruence.
  - by apply StronglySorted_merge_sort; apply _.
  - by rewrite merge_sort_Permutation.
Qed.

(** ** The specification without a filter *)

Lemma unfiltered_accepts filters (info : ec2.InstanceTypeInfo) :
  unfiltered filters = true → populated (Some info) = true →
  accepts filters info = true.
Proof.
  unfold unfiltered, populated, accepts, filterToInstanceSpecMappingPairs.
  rewrite !andb_true_iff, !bool_decide_eq_true.
  intros (_ & Hfields) (((((_ & [? ->]) & [? ->]) & [? ->]) & [? ->]) & [? ->]).
  simpl in *. rewrite !andb_true_iff in Hfields.
  unfold allSatisfied, satisfied. simpl.
  repeat match goal with H : _ ∧ _ |- _ => destruct H end.
  repeat match goal with H : IsNil _ = true |- _ => rewrite H; clear H end.
  done.
Qed.

Lemma accepted_callback itf filters index records st :
  Forall (λ p, populated p = true ∧
               ∀ info, p = Some info → accepts filters info = true) records →
  ∃ st', instanceTypesCallback itf filters index records st = Continue st'.
Proof.
  intros Hall. revert st.
  induction Hall as [| p records [Hpop Hacc] _ IH]; intros st; simpl; [eauto |].
  destruct p as [info |]; [| done]. simpl.
  specialize (Hacc info eq_refl). unfold accepts in Hacc.
  unfold populated in Hpop. rewrite !andb_true_iff, !bool_decide_eq_true in Hpop.
  destruct Hpop as ((((([name ->] & _) & _) & _) & _) & _). simpl.
  destruct (filterToInstanceSpecMappingPairs filters info) as [pairs |]; [| done].
  simpl.
  assert (Hrun : executeFilters itf (mapRange (ranges st) pairs) name = (true, None)).
  { apply executeFilters_accepts. unfold allSatisfied in *.
    by rewrite (forallb_Permutation _ _ pairs) by apply mapRange_perm. }
  rewrite Hrun. apply IH.
Qed.

Lemma populated_Some records :
  forallb populated records = true →
  ∃ infos, records = Some <$> infos ∧
           Forall (λ info, populated (Some info) = true) infos.
Proof.
  induction records as [| p records IH]; simpl.
  - intros _. by exists [].
  - rewrite andb_true_iff. intros [Hp Hrest].
    destruct (IH Hrest) as (infos & -> & Hall).
    destruct p as [info |]; [| done].
    exists (info :: infos). split; [done | by constructor].
Qed.

Lemma populated_name (info : ec2.InstanceTypeInfo) :
  populated (Some info) = true →
  ec2.InstanceType info = Some (instanceTypeName info).
Proof.
  unfold populated, instanceTypeName.
  rewrite !andb_true_iff, !bool_decide_eq_true.
  by intros ((((([name ->] & _) & _) & _) & _) & _).
Qed.

(** With names that do not repeat, the last record of a name is the
    record of that name. *)
Lemma lastNamed_list_to_map (infos : list ec2.InstanceTypeInfo) (name : string) :
  Forall (λ info, populated (Some info) = true) infos →
  NoDup (instanceTypeName <$> infos) →
  lastNamed name (Some <$> infos)
  = (list_to_map ((λ info, (instanceTypeName info, info)) <$> infos)
      : gmap string ec2.InstanceTypeInfo) !! name.
Proof.
  induction 1 as [| info infos Hpop _ IH]; intros Hnodup.
  - simpl. by rewrite lookup_empty.
  - rewrite fmap_cons in Hnodup. apply NoDup_cons in Hnodup as [Hfresh Hnodup].
    rewrite !fmap_cons, list_to_map_cons. cbn [lastNamed named].
    rewrite (IH Hnodup). rewrite (populated_name _ Hpop).
    destruct (decide (instanceTypeName info = name)) as [<- | Hne].
    + rewrite lookup_insert_eq, bool_decide_eq_true_2 by done.
      rewrite (not_elem_of_list_to_map_1 _ (instanceTypeName info)); [done |].
      by rewrite <- list_fmap_compose.
    + rewrite lookup_insert_ne, bool_decide_eq_false_2 by congruence.
      by destruct (list_to_map _ !! name).
Qed.

Lemma collected_unfiltered itf filters st (infos : list ec2.InstanceTypeInfo) :
  unfiltered filters = true →
  Forall (λ info, populated (Some info) = true) infos →
  NoDup (instanceTypeName <$> infos) →
  instanceTypesCallback itf filters None (Some <$> infos) noCandidates = Continue st →
  collected st ≡ₚ infos.
Proof.
  intros Hunf Hall Hnodup Hloop.
  apply callback_Continue in Hloop as (Hlookup & _ & _).
  set (kvs := (λ info, (instanceTypeName info, info)) <$> infos).
  assert (Hkeys : kvs.*1 = instanceTypeName <$> infos)
    by (unfold kvs; by rewrite <- list_fmap_compose).
  assert (Hvalues : kvs.*2 = infos).
  { unfold kvs. rewrite <- list_fmap_compose. apply list_fmap_id. }
  assert (Hmap : instanceTypeCandidates st = list_to_map kvs).
  { apply map_eq. intros name. rewrite Hlookup, (lastNamed_list_to_map _ _ Hall Hnodup).
    fold kvs. destruct (list_to_map kvs !! name) as [info |] eqn:Hinfo; [| done].
    apply elem_of_list_to_map_2 in Hinfo.
    assert (Hin : info ∈ infos).
    { rewrite <- Hvalues. by apply (list_elem_of_fmap_2 snd _ (name, info)). }
    rewrite Forall_forall in Hall.
    by rewrite (unfiltered_accepts _ _ Hunf (Hall _ Hin)). }
  unfold collected, sortInstanceTypeInfo.
  rewrite merge_sort_Permutation, mapRange_perm, Hmap.
  rewrite map_to_list_to_map by (by rewrite Hkeys). by rewrite Hvalues.
Qed.

(** Whatever the filters, the slice that [rawFilter] sorts has no name
    twice (the names are the keys of the candidate map), so its result is
    in strictly ascending order of names and is the only ordered
    arrangement of the candidates ([sorted_by_name_unique]). *)
Lemma rawFilter_sorted itf filters (found : list ec2.InstanceTypeInfo) (t : list event) :
  rawFilter itf filters = (Ok found, t) →
  NoDup (instanceTypeName <$> found) ∧ StronglySorted nameBefore found.
Proof.
  intros Hraw.
  apply rawFilter_Ok in Hraw as (index & t1 & p & ps & st & _ & _ & Hloop & _ & ->).
  apply callback_Continue in Hloop as (Hlookup & _ & _).
  assert (Hkeys : ∀ name info,
             instanceTypeCandidates st !! name = Some info →
             instanceTypeName info = name).
  { intros name info Hinfo. rewrite Hlookup in Hinfo.
    destruct (lastNamed name (concat (p :: ps))) as [last |] eqn:Hlast;
      [| unfold noCandidates in Hinfo; simpl in Hinfo;
         by rewrite lookup_empty in Hinfo].
    destruct (isSupportedInLocation index name && accepts filters last); [| done].
    injection Hinfo as <-. apply lastNamed_name in Hlast as [Hname _].
    unfold instanceTypeName. by rewrite Hname. }
  assert (Hnodup : NoDup (instanceTypeName <$> collected st)).
  { unfold collected, sortInstanceTypeInfo.
    rewrite merge_sort_Permutation, mapRange_perm.
    replace (instanceTypeName <$> (map_to_list (instanceTypeCandidates st)).*2)
      with ((map_to_list (instanceTypeCandidates st)).*1);
      [apply NoDup_fst_map_to_list |].
    rewrite <- list_fmap_compose. apply list_fmap_ext.
    intros i [name info] Hin. simpl. symmetry. apply Hkeys.
    apply elem_of_map_to_list. by eapply list_elem_of_lookup_2. }
  split; [done |]. apply sorted_strictly; [| done].
  unfold collected, sortInstanceTypeInfo. apply StronglySorted_merge_sort; apply _.
Qed.

(** C5.  Without any filter, location or maximum, and for a catalog that
    the provider serves whole, in pages of records that have their name
    and nested structures, with no name twice: the result holds exactly
    the records of the catalog, in strictly ascending lexicographic order
    of their names. *)
Theorem unfiltered_returns_sorted_catalog itf filters
    (outputFn : list ec2.InstanceTypeInfo → list string)
    (p : ec2.InstanceTypesPage) (ps : list ec2.InstanceTypesPage) :
  unfiltered filters = true →
  ec2.instanceTypes (EC2 itf) = servePages p ps →
  forallb populated (concat (p :: ps)) = true →
  NoDup (recordName <$> concat (p :: ps)) →
  ∃ found,
    FilterVerbose itf filters
    = (Ok found, replicate (S (length ps)) DescribeInstanceTypesRequest) ∧
    FilterWithOutput itf filters outputFn
    = (Ok (outputFn found), replicate (S (length ps)) DescribeInstanceTypesRequest) ∧
    Some <$> found ≡ₚ concat (p :: ps) ∧
    StronglySorted nameBefore found.
Proof.
  intros Hunf Hserve Hpop Hnodup.
  destruct (populated_Some _ Hpop) as (infos & Hrecords & Hall).
  pose proof Hunf as Hfields. unfold unfiltered in Hfields.
  rewrite !andb_true_iff, !bool_decide_eq_true in Hfields.
  destruct Hfields as (((Haz & Hregion) & Hmax) & _).
  assert (Hlocation : locationOf filters = "")
    by (unfold locationOf; by rewrite Haz, Hregion).
  assert (Hnames : NoDup (instanceTypeName <$> infos)).
  { rewrite Hrecords, <- list_fmap_compose in Hnodup.
    apply (NoDup_fmap_1 Some). rewrite <- list_fmap_compose.
    erewrite list_fmap_ext; [exact Hnodup |].
    intros i info Hin. simpl. symmetry. apply populated_name.
    rewrite Forall_forall in Hall. apply Hall. by eapply list_elem_of_lookup_2. }
  destruct (accepted_callback itf filters None (concat (p :: ps)) noCandidates)
    as [st Hloop].
  { rewrite Hrecords. apply Forall_fmap. eapply Forall_impl; [exact Hall |].
    intros info Hinfo. simpl. split; [done |].
    intros ? [= <-]. by apply unfiltered_accepts. }
  assert (Hraw : rawFilter itf filters
                 = (Ok (collected st),
                    replicate (S (length ps)) DescribeInstanceTypesRequest)).
  { rewrite (rawFilter_servePages itf filters None [] p ps st); [done | | done | done].
    by rewrite Hlocation. }
  assert (Hperm : collected st ≡ₚ infos).
  { eapply collected_unfiltered; [done | done | done |].
    rewrite <- Hrecords. exact Hloop. }
  exists (collected st).
  unfold FilterWithOutput, FilterVerbose. rewrite Hraw, Hmax.
  split; [done |]. split; [done |]. split.
  - by rewrite Hrecords, Hperm.
  - apply sorted_strictly.
    + unfold collected, sortInstanceTypeInfo. apply StronglySorted_merge_sort; apply _.
    + by rewrite Hperm.
Qed.

(** C9, as amended.  Every record is evaluated when it arrives, whatever
    happened to its name before: it is inserted, and removed again if it
    fails the location check or a filter.  So when [rawFilter] returns a
    list, the catalog arrived whole and the list holds a record iff it is
    the last record of its name in the catalog and passes the location
    check and every filter: a name removed on one page comes back with a
    later record that passes, and a name kept on one page goes with a
    later record that fails.  A name that fails the location check is
    never in the result. *)
Theorem last_record_of_a_name_decides itf filters
    (found : list ec2.InstanceTypeInfo) (t : list event) :
  rawFilter itf filters = (Ok found, t) →
  ∃ index t1 p ps,
    RetrieveInstanceTypesSupportedInLocation itf (locationOf filters) = (Ok index, t1) ∧
    ec2.instanceTypes (EC2 itf) = servePages p ps ∧
    ∀ info,
      info ∈ found ↔
      ∃ name,
        ec2.InstanceType info = Some name ∧
        lastNamed name (concat (p :: ps)) = Some info ∧
        isSupportedInLocation index name = true ∧
        accepts filters info = true.
Proof.
  intros Hraw.
  apply rawFilter_Ok in Hraw as (index & t1 & p & ps & st & Hretrieve & Hserve & Hloop & _ & ->).
  exists index, t1, p, ps. split; [done |]. split; [done |].
  apply callback_Continue in Hloop as (Hlookup & _ & _).
  intros info. rewrite elem_of_collected. split.
  - intros [name Hname]. exists name. rewrite Hlookup in Hname.
    destruct (lastNamed name (concat (p :: ps))) as [last |] eqn:Hlast;
      [| unfold noCandidates in Hname; simpl in Hname;
         by rewrite lookup_empty in Hname].
    destruct (isSupportedInLocation index name) eqn:Hlocated; [| done].
    destruct (accepts filters last) eqn:Haccepts; [| done].
    simpl in Hname. injection Hname as <-.
    by destruct (lastNamed_name _ _ _ Hlast).
  - intros (name & _ & Hlast & Hlocated & Haccepts). exists name.
    by rewrite Hlookup, Hlast, Hlocated, Haccepts.
Qed.

End aggregation.

(* ================================================================== *)
(** * More on the location patterns *)
(* ================================================================== *)

Section patterns.

Ltac class_cases :=
  repeat match goal with
         | |- context [if in_range ?lo ?hi ?c then _ else _] =>
             destruct (in_range lo hi c) eqn:?; simpl
         | |- context [if Ascii.eqb ?c ?d then _ else _] =>
             destruct (Ascii.eqb_spec c d); simpl
         end.

(** X1.  The zone-id pattern accepts exactly the strings of eight
    bytes made of three lower-case letters, a digit from 1 to 9, the
    bytes [-az], and a digit from 1 to 9. *)
Theorem zone_id_exact (zone : string) :
  MatchString zoneIDRegex zone = true ↔
  ∃ c1 c2 c3 d1 d2,
    zone = String c1 (String c2 (String c3 (String d1
             (String "-" (String "a" (String "z" (String d2 ""))))))) ∧
    in_range "a" "z" c1 = true ∧ in_range "a" "z" c2 = true ∧
    in_range "a" "z" c3 = true ∧
    in_range "1" "9" d1 = true ∧ in_range "1" "9" d2 = true.
Proof.
  unfold zoneIDRegex, cat. cbn [foldr].
  rewrite MatchString_anchored, matches_at_true. split.
  - destruct zone as [|c1 [|c2 [|c3 [|c4 [|c5 [|c6 [|c7 [|c8 [|c9 rest]]]]]]]]];
      simpl; class_cases; try congruence.
    intros _. subst. by exists c1, c2, c3, c4, c8.
  - intros (c1 & c2 & c3 & d1 & d2 & -> & H1 & H2 & H3 & H4 & H5).
    simpl. do 5 (rewrite ?H1, ?H2, ?H3, ?H4, ?H5; simpl).
    congruence.
Qed.

Definition lift (x : string) (p : pos) : pos := (p.1, String.append p.2 x).

Lemma elem_of_flat_map {A B : Type} (f : A → list B) (l : list A) (y : B) :
  y ∈ flat_map f l ↔ ∃ x, x ∈ l ∧ y ∈ f x.
Proof.
  rewrite list_elem_of_In, in_flat_map.
  split; intros (x & Hx & Hy); exists x; by rewrite ?list_elem_of_In in *.
Qed.

Lemma iter_run_lift (x : string) (f : pos → list pos) (lo hi : nat) :
  (∀ p q, q ∈ f p → lift x q ∈ f (lift x p)) →
  ∀ p q, q ∈ iter_run f lo hi p → lift x q ∈ iter_run f lo hi (lift x p).
Proof.
  intros Hf. revert lo. induction hi as [| hi IH]; intros lo p q; simpl.
  - destruct lo; [| by rewrite elem_of_nil].
    rewrite !list_elem_of_singleton. by intros ->.
  - rewrite !elem_of_app, !elem_of_flat_map. intros [Hhere | (p1 & Hp1 & Hq)].
    + left. destruct lo; [| by rewrite elem_of_nil in Hhere].
      apply list_elem_of_singleton in Hhere as ->. by apply list_elem_of_singleton.
    + right. exists (lift x p1). split; [by apply Hf | by apply IH].
Qed.

(** A match of a pattern without end anchor stays a match when the text
    is extended. *)
Lemma run_lift (x : string) (r : regex) :
  eol_free r = true →
  ∀ p q, q ∈ run r p → lift x q ∈ run r (lift x p).
Proof.
  induction r as [| | | c | lo hi | r1 IH1 r2 IH2 | r1 IH1 | lo hi r1 IH1];
    simpl; intros Hfree [b s] q.
  - rewrite !list_elem_of_singleton. by intros ->.
  - simpl. destruct b; [| by rewrite elem_of_nil].
    rewrite !list_elem_of_singleton. by intros ->.
  - done.
  - simpl. destruct s as [| a s]; simpl; [by rewrite elem_of_nil |].
    destruct (Ascii.eqb a c); [| by rewrite elem_of_nil].
    rewrite !list_elem_of_singleton. by intros ->.
  - simpl. destruct s as [| a s]; simpl; [by rewrite elem_of_nil |].
    destruct (in_range lo hi a); [| by rewrite elem_of_nil].
    rewrite !list_elem_of_singleton. by intros ->.
  - apply andb_true_iff in Hfree as [Hfree1 Hfree2].
    rewrite !elem_of_flat_map. intros (p1 & Hp1 & Hq).
    exists (lift x p1). split; [by apply IH1 | by apply IH2].
  - rewrite !elem_of_cons. intros [-> | Hq]; [by left | right; by apply IH1].
  - apply iter_run_lift. intros p1 q1. by apply IH1.
Qed.

(** X2.  The region pattern has no end anchor: a string that matches it
    still matches it with anything appended, so such a string is never
    refused as an invalid location. *)
Theorem region_prefix_closed (zone suffix : string) :
  MatchString regionNameRegex zone = true →
  MatchString regionNameRegex (String.append zone suffix) = true ∧
  ∃ locationType, locationTypeOf (String.append zone suffix) = Some locationType.
Proof.
  intros Hzone.
  assert (Hlonger : MatchString regionNameRegex (String.append zone suffix) = true).
  { revert Hzone. unfold regionNameRegex, cat. cbn [foldr].
    rewrite !MatchString_anchored, !matches_at_true.
    set (body := Cat (Rep 2 3 lower) _).
    intros Hrun. destruct (run body (true, zone)) as [| q qs] eqn:Hq; [done |].
    assert (Hin : lift suffix q ∈ run body (lift suffix (true, zone))).
    { apply run_lift; [reflexivity |]. rewrite Hq. by left. }
    change (lift suffix (true, zone)) with (true, String.append zone suffix) in Hin.
    intros Hnil. rewrite Hnil in Hin. by apply elem_of_nil in Hin. }
  split; [done |]. unfold locationTypeOf. rewrite Hlonger.
  destruct (MatchString zoneIDRegex (String.append zone suffix)),
    (MatchString zoneNameRegex (String.append zone suffix)); eauto.
Qed.

End patterns.

(* ================================================================== *)
(** * More on filter dispatch *)
(* ================================================================== *)

Section dispatch_outcomes.
Context {helpers : Helpers}.

(** X3.  [executeFilters] is decided by the first entry, in the order of
    iteration, whose filter is present and not passed: without such an
    entry the record is accepted; otherwise it is not, with the dispatch
    error of that entry when the shapes of its filter and attribute have
    no comparator, and with no error when its comparator said no.  The
    result is never [true] together with an error. *)
Theorem executeFilters_first_unsatisfied (itf : Selector)
    (entries : list (string * filterPair)) (instanceType : string) :
  executeFilters itf entries instanceType
  = match List.find (λ entry, negb (satisfied entry.2)) entries with
    | None => (true, None)
    | Some entry =>
        (false, if mismatched entry.2
                then Some (dispatchError instanceType entry) else None)
    end.
Proof.
  induction entries as [| [filterName [fv sv]] rest IH]; simpl; [done |].
  unfold satisfied, mismatched, comparatorPasses, dispatchError. simpl.
  destruct fv as [[?|] | [?|] | [?|] | [?|] | []], sv; simpl;
    try exact IH; try done;
    match goal with
    | |- context [negb ?c] => destruct c; simpl; [exact IH | done]
    end.
Qed.

Lemma no_mismatch_no_error (itf : Selector) (entries : list (string * filterPair))
    (instanceType : string) :
  Forall (λ entry, mismatched entry.2 = false) entries →
  executeFilters itf entries instanceType = (allSatisfied entries, None).
Proof.
  induction 1 as [| [filterName [fv sv]] rest Hhead _ IH]; simpl; [done |].
  unfold satisfied, mismatched, comparatorPasses in *. simpl in *.
  destruct fv as [[?|] | [?|] | [?|] | [?|] | []], sv; simpl in *;
    try exact IH; try done;
    match goal with
    | |- context [negb ?c] => destruct c; simpl; [exact IH | done]
    end.
Qed.

(** X4.  When every present filter of a table has a comparator for the
    shape of its attribute, [executeFilters] returns no error, and its
    boolean is the conjunction over the entries, in whatever order the
    map is visited. *)
Theorem well_typed_table_never_errors (itf : Selector)
    (entries permuted : list (string * filterPair)) (instanceType : string) :
  Forall (λ entry, mismatched entry.2 = false) entries →
  permuted ≡ₚ entries →
  executeFilters itf permuted instanceType = (allSatisfied entries, None).
Proof.
  intros Htyped Hperm.
  rewrite no_mismatch_no_error by (by rewrite Hperm).
  unfold allSatisfied. by rewrite (forallb_Permutation _ _ _ Hperm).
Qed.

End dispatch_outcomes.

(* ================================================================== *)
(** * More on the paging primitive and the location resolver *)
(* ================================================================== *)

Section paging.
Context {P St : Type} (req : event) (fn : P → St → step St)
  (loop : list P → St → step St).
Hypothesis loop_nil : ∀ s, loop [] s = Continue s.
Hypothesis loop_cons : ∀ p ps s,
  loop (p :: ps) s
  = match fn p s with Continue s1 => loop ps s1 | other => other end.

Lemma eachPage_whole (p : P) (ps : list P) (s s' : St) :
  loop (p :: ps) s = Continue s' →
  eachPage req (servePages p ps) fn s
  = (Some (s', None), replicate (S (length ps)) req).
Proof.
  revert p s. induction ps as [| q ps IH]; intros p s; rewrite loop_cons.
  - simpl. destruct (fn p s) as [s1 | s1 |]; [| done | done].
    rewrite loop_nil. by intros [= ->].
  - cbn [servePages eachPage].
    destruct (fn p s) as [s1 | s1 |]; [| done | done].
    intros Hrest. by rewrite (IH _ _ Hrest).
Qed.

Lemma eachPage_never_stopped (pages : pager P) (s s' : St) (t : list event) :
  (∀ p s s', fn p s ≠ Stop s') →
  eachPage req pages fn s = (Some (s', None), t) →
  ∃ p ps, pages = servePages p ps ∧ loop (p :: ps) s = Continue s' ∧
          t = replicate (S (length ps)) req.
Proof.
  intros Hstop. revert s t. induction pages as [e | p | p rest IH]; intros s t; simpl.
  - done.
  - destruct (fn p s) as [s1 | s1 |] eqn:Hp; [| by destruct (Hstop p s s1) | done].
    intros [= <- <-]. exists p, []. by rewrite loop_cons, Hp, loop_nil.
  - destruct (fn p s) as [s1 | s1 |] eqn:Hp; [| by destruct (Hstop p s s1) | done].
    destruct (eachPage req rest fn s1) as [r t'] eqn:Hrest.
    intros [= -> <-]. destruct (IH _ _ Hrest) as (q & qs & -> & Hloop & ->).
    exists p, (q :: qs). by rewrite loop_cons, Hp.
Qed.

End paging.

(** Every run of the paging primitive sends at least one request, and
    only requests of its own operation. *)
Lemma eachPage_trace {P St : Type} (req : event) (pages : pager P)
    (fn : P → St → step St) (s : St) :
  ∃ n, (eachPage req pages fn s).2 = replicate (S n) req.
Proof.
  revert s. induction pages as [e | p | p rest IH]; intros s; simpl.
  - by exists 0%nat.
  - exists 0%nat. by destruct (fn p s).
  - destruct (fn p s) as [s1 | s1 |]; [| by exists 0%nat | by exists 0%nat].
    destruct (IH s1) as [n Hn].
    destruct (eachPage req rest fn s1) as [r t]. simpl in *.
    exists (S n). by rewrite Hn.
Qed.

Lemma offeringsCallback_app (page1 page2 : ec2.OfferingsPage) (m : gmap string string) :
  offeringsCallback (page1 ++ page2) m
  = match offeringsCallback page1 m with
    | Continue m' => offeringsCallback page2 m'
    | other => other
    end.
Proof.
  revert m. induction page1 as [| o page1 IH]; intros m; simpl; [done |].
  destruct o as [[[name |] [location |]] |]; first [done | apply IH].
Qed.

Lemma offeringsCallback_pages (p : ec2.OfferingsPage) (ps : list ec2.OfferingsPage)
    (m : gmap string string) :
  offeringsCallback (concat (p :: ps)) m
  = match offeringsCallback p m with
    | Continue m' => offeringsCallback (concat ps) m'
    | other => other
    end.
Proof. simpl. apply offeringsCallback_app. Qed.

Lemma offeringsCallback_never_stops (page : ec2.OfferingsPage) (m m' : gmap string string) :
  offeringsCallback page m ≠ Stop m'.
Proof.
  revert m. induction page as [| o page IH]; intros m; simpl; [done |].
  destruct o as [[[name |] [location |]] |]; first [done | apply IH].
Qed.

Lemma offeringsCallback_offered (page : ec2.OfferingsPage) (m : gmap string string) :
  forallb offered page = true → ∃ m', offeringsCallback page m = Continue m'.
Proof.
  revert m. induction page as [| o page IH]; intros m; simpl; [eauto |].
  rewrite andb_true_iff. intros [Ho Hpage].
  destruct o as [[[name |] [location |]] |]; first [done | by apply IH].
Qed.

(** The map the callback has built: the last offering of a name wins. *)
Lemma offeringsCallback_Continue (page : ec2.OfferingsPage) (m m' : gmap string string) :
  offeringsCallback page m = Continue m' →
  forallb offered page = true ∧
  ∀ name, m' !! name
          = match lastOffered name page with
            | Some location => Some location
            | None => m !! name
            end.
Proof.
  revert m. induction page as [| o page IH]; intros m; simpl.
  - by intros [= <-].
  - destruct o as [[[n |] [location |]] |]; try done.
    intros Hrest. destruct (IH _ Hrest) as [Hoffered Hlookup].
    split; [done |]. intros name. rewrite Hlookup.
    destruct (lastOffered name page); [done |].
    destruct (String.eqb_spec n name) as [-> | Hne].
    + by rewrite lookup_insert_eq.
    + by rewrite lookup_insert_ne.
Qed.

(** X5.  For a location that is not empty and has a location type, and
    offerings that the provider serves whole, each with its instance type
    and location: the resolver sends one request per page, each with that
    location type and the filter [location] = the location, and returns
    an index that maps a name to the location of its last offering, and
    has no other key; so the location check passes exactly the offered
    names. *)
Theorem Retrieve_builds_index (itf : Selector) (zone locationType : string)
    (p : ec2.OfferingsPage) (ps : list ec2.OfferingsPage) :
  String.eqb zone "" = false →
  locationTypeOf zone = Some locationType →
  ec2.instanceTypeOfferings (EC2 itf) locationType zone = servePages p ps →
  forallb offered (concat (p :: ps)) = true →
  ∃ index,
    RetrieveInstanceTypesSupportedInLocation itf zone
    = (Ok (Some index),
       replicate (S (length ps))
         (DescribeInstanceTypeOfferingsRequest locationType locationFilterKey zone)) ∧
    (∀ name, index !! name = lastOffered name (concat (p :: ps))) ∧
    (∀ name, isSupportedInLocation (Some index) name = true ↔
             is_Some (lastOffered name (concat (p :: ps)))).
Proof.
  intros Hne Htype Hserve Hoffered.
  destruct (offeringsCallback_offered _ ∅ Hoffered) as [index Hloop].
  exists index.
  destruct (offeringsCallback_Continue _ _ _ Hloop) as [_ Hlookup].
  assert (Hindex : ∀ name, index !! name = lastOffered name (concat (p :: ps))).
  { intros name. rewrite Hlookup. destruct (lastOffered name _); [done |].
    apply lookup_empty. }
  split; [| split; [exact Hindex |]].
  - unfold RetrieveInstanceTypesSupportedInLocation,
      ec2.DescribeInstanceTypeOfferingsPages.
    rewrite Hne, Htype, Hserve.
    by rewrite (eachPage_whole _ offeringsCallback
                  (λ pages, offeringsCallback (concat pages))
                  (λ s, eq_refl) offeringsCallback_pages _ _ _ _ Hloop).
  - intros name. unfold isSupportedInLocation. rewrite Hindex.
    destruct (lastOffered name _); split; intros H;
      first [done | by eexists | by destruct H].
Qed.

(** The converse: an index comes only out of offerings served whole. *)
Lemma Retrieve_Ok_Some (itf : Selector) (zone : string)
    (index : gmap string string) (t : list event) :
  RetrieveInstanceTypesSupportedInLocation itf zone = (Ok (Some index), t) →
  ∃ locationType p ps,
    locationTypeOf zone = Some locationType ∧
    ec2.instanceTypeOfferings (EC2 itf) locationType zone = servePages p ps ∧
    ∀ name, index !! name = lastOffered name (concat (p :: ps)).
Proof.
  unfold RetrieveInstanceTypesSupportedInLocation,
    ec2.DescribeInstanceTypeOfferingsPages.
  destruct (String.eqb zone ""); [done |].
  destruct (locationTypeOf zone) as [locationType |]; [| done].
  destruct (eachPage _ _ offeringsCallback ∅) as [[[m [e |]] |] t'] eqn:Hpages;
    [done | | done].
  intros [= <- <-].
  apply (eachPage_never_stopped _ offeringsCallback
           (λ pages, offeringsCallback (concat pages))
           (λ s, eq_refl) offeringsCallback_pages) in Hpages
    as (p & ps & Hserve & Hloop & _);
    [| intros; apply offeringsCallback_never_stops].
  exists locationType, p, ps. split; [done |]. split; [done |].
  destruct (offeringsCallback_Continue _ _ _ Hloop) as [_ Hlookup].
  intros name. rewrite Hlookup. destruct (lastOffered name _); [done |].
  apply lookup_empty.
Qed.

(** X6.  The outcomes of the resolver.  It returns the absent (nil) index
    exactly for the empty location.  It sends no request exactly when the
    location is empty or has no location type, and every request it sends
    is an offerings request with the location type of the location and
    the filter [location] = the location.  Its errors are the invalid
    location error, for a location without location type, and the wrapped
    error of the offerings call. *)
Theorem Retrieve_outcomes (itf : Selector) (zone : string) :
  ((RetrieveInstanceTypesSupportedInLocation itf zone).1 = Ok None ↔ zone = "") ∧
  ((RetrieveInstanceTypesSupportedInLocation itf zone).2 = [] ↔
     zone = "" ∨ locationTypeOf zone = None) ∧
  (∀ e, (RetrieveInstanceTypesSupportedInLocation itf zone).1 = Err e →
     (e = InvalidLocation zone ∧ locationTypeOf zone = None) ∨
     (∃ cause, e = DescribeOfferingsFailed cause)) ∧
  (∀ ev, ev ∈ (RetrieveInstanceTypesSupportedInLocation itf zone).2 →
     ∃ locationType,
       locationTypeOf zone = Some locationType ∧
       ev = DescribeInstanceTypeOfferingsRequest locationType locationFilterKey zone).
Proof.
  unfold RetrieveInstanceTypesSupportedInLocation,
    ec2.DescribeInstanceTypeOfferingsPages.
  destruct (String.eqb_spec zone "") as [-> | Hne]; simpl.
  { split; [done |]. split; [by split; auto |]. split; [done |].
    intros ev Hev. by apply elem_of_nil in Hev. }
  destruct (locationTypeOf zone) as [locationType |] eqn:Htype; simpl.
  - pose proof (eachPage_trace
                  (DescribeInstanceTypeOfferingsRequest locationType locationFilterKey zone)
                  (ec2.instanceTypeOfferings (EC2 itf) locationType zone)
                  offeringsCallback ∅) as [n Hn].
    destruct (eachPage _ _ offeringsCallback ∅) as [[[m [e |]] |] t]; simpl in *;
      subst t;
      (split; [split; [done | by intros ->] |]);
      (split; [split; [done | by intros [-> | ?]] |]);
      (split; [intros e' [= <-] || intros e' [=]; eauto |]);
      intros ev Hev; exists locationType; (split; [done |]);
      rewrite <- replicate_S in Hev; by apply elem_of_replicate in Hev as [-> _].
  - split; [split; [done | by intros ->] |].
    split; [split; auto |]. split; [intros e [= <-]; auto |].
    intros ev Hev. by apply elem_of_nil in Hev.
Qed.

(* ================================================================== *)
(** * More on the candidate aggregator and the entry points *)
(* ================================================================== *)

Section aggregator_outcomes.
Context {helpers : Helpers} {order : MapOrder}.

Implicit Types (itf : Selector) (filters : Filters)
  (index : option (gmap string string)) (st : captured)
  (records : ec2.InstanceTypesPage).

Lemma callback_Continue_populated itf filters index records st st' :
  instanceTypesCallback itf filters index records st = Continue st' →
  forallb populated records = true.
Proof.
  revert st. induction records as [| p records IH]; intros st; simpl; [done |].
  destruct p as [info |]; simpl; [| done].
  unfold filterToInstanceSpecMappingPairs.
  destruct (ec2.InstanceType info) as [name |]; simpl; [| done].
  destruct (ec2.ProcessorInfo info); simpl; [| done].
  destruct (ec2.VCpuInfo info); simpl; [| done].
  destruct (ec2.MemoryInfo info); simpl; [| done].
  destruct (ec2.PlacementGroupInfo info); simpl; [| done].
  destruct (ec2.NetworkInfo info); simpl; [| done].
  match goal with
  | |- context [executeFilters ?i ?l ?n] =>
      destruct (executeFilters i l n) as [b [e |]]; [done |]
  end.
  intros Hrest. rewrite (IH _ Hrest).
  by rewrite ?bool_decide_eq_true_2 by eauto.
Qed.

Lemma populated_pairs filters (info : ec2.InstanceTypeInfo) :
  populated (Some info) = true →
  ∃ name pairs, ec2.InstanceType info = Some name ∧
                filterToInstanceSpecMappingPairs filters info = Some pairs.
Proof.
  unfold populated, filterToInstanceSpecMappingPairs.
  rewrite !andb_true_iff, !bool_decide_eq_true.
  intros ((((([name ->] & [? ->]) & [? ->]) & [? ->]) & [? ->]) & [? ->]).
  simpl. eauto.
Qed.

(** On records that have their name and nested structures the page loop
    runs to its end or stops on a dispatch error; it does not panic. *)
Lemma callback_populated itf filters index records st :
  forallb populated records = true →
  instanceTypesCallback itf filters index records st ≠ Crash.
Proof.
  revert st. induction records as [| p records IH]; intros st; simpl; [done |].
  rewrite andb_true_iff. intros [Hp Hrest].
  destruct p as [info |]; [| done].
  destruct (populated_pairs filters info Hp) as (name & pairs & Hname & Hpairs).
  simpl. rewrite Hname. simpl. rewrite Hpairs. simpl.
  destruct (executeFilters itf (mapRange (ranges st) pairs) name) as [b [e |]];
    [done | by apply IH].
Qed.

(** Where the error of a stopped page loop comes from. *)
Lemma callback_Stop_source itf filters index records st st' :
  instanceTypesCallback itf filters index records st = Stop st' →
  ∃ info name pairs filterName fPair e,
    Some info ∈ records ∧ ec2.InstanceType info = Some name ∧
    filterToInstanceSpecMappingPairs filters info = Some pairs ∧
    (filterName, fPair) ∈ pairs ∧ mismatched fPair = true ∧
    (e = UnableToProcess filterName name ∨ e = NoFilterHandler filterName name) ∧
    innerErr st' = Some e.
Proof.
  revert st. induction records as [| p records IH]; intros st; simpl; [done |].
  destruct p as [info |]; simpl; [| done].
  destruct (ec2.InstanceType info) as [name |] eqn:Hname; simpl; [| done].
  destruct (filterToInstanceSpecMappingPairs filters info) as [pairs |] eqn:Hpairs;
    simpl; [| done].
  destruct (executeFilters itf (mapRange (ranges st) pairs) name) as [b [e |]] eqn:Hrun.
  - intros [= <-].
    destruct (executeFilters_error _ _ _ _ _ Hrun) as (_ & n & fp & Hin & Hbad & He).
    rewrite mapRange_perm in Hin.
    exists info, name, pairs, n, fp, e. simpl.
    repeat (split; [done || by left |]). done.
  - intros Hrest.
    destruct (IH _ Hrest) as (i & n & ps & fn & fp & e & Hin & H).
    exists i, n, ps, fn, fp, e. split; [by right | done].
Qed.

Lemma eachPage_stopped itf filters index (req : event)
    (pages : pager ec2.InstanceTypesPage) st st' (t : list event) (e : error) :
  eachPage req pages (instanceTypesCallback itf filters index) st
  = (Some (st', None), t) →
  innerErr st = None → innerErr st' = Some e →
  ∃ page s0 s1, page ∈ pages_of pages ∧
    instanceTypesCallback itf filters index page s0 = Stop s1 ∧
    innerErr s1 = Some e.
Proof.
  revert st t. induction pages as [e' | p | p rest IH]; intros st t; simpl.
  - done.
  - destruct (instanceTypesCallback itf filters index p st) as [s1 | s1 |] eqn:Hp;
      [| | done]; intros [= <- <-] Hnone Hsome.
    + apply callback_Continue in Hp as (_ & _ & Herr). rewrite Herr in Hsome; done.
    + exists p, st, s1. split; [by left | done].
  - destruct (instanceTypesCallback itf filters index p st) as [s1 | s1 |] eqn:Hp;
      [| | done].
    + destruct (eachPage req rest (instanceTypesCallback itf filters index) s1)
        as [r t'] eqn:Hrest.
      intros [= -> <-] Hnone Hsome.
      apply callback_Continue in Hp as (_ & _ & Herr).
      destruct (IH _ _ Hrest (Herr Hnone) Hsome) as (page & s0 & s2 & Hin & H).
      exists page, s0, s2. split; [by right | done].
    + intros [= <- <-] Hnone Hsome. exists p, st, s1. split; [by left | done].
Qed.

Lemma eachPage_no_crash {P St : Type} (req : event) (pages : pager P)
    (fn : P → St → step St) (s : St) :
  (∀ p s, p ∈ pages_of pages → fn p s ≠ Crash) →
  ∃ r, (eachPage req pages fn s).1 = Some r.
Proof.
  revert s. induction pages as [e | p | p rest IH]; intros s Hsafe; simpl.
  - eauto.
  - destruct (fn p s) eqn:Hp; [eauto | eauto |].
    destruct (Hsafe p s); [by left | done].
  - destruct (fn p s) as [s1 | s1 |] eqn:Hp; [| eauto |].
    + destruct (IH s1) as [r Hr]; [intros q s' Hq; apply Hsafe; by right |].
      destruct (eachPage req rest fn s1). simpl in *. eauto.
    + destruct (Hsafe p s); [by left | done].
Qed.

(** X7.  Whatever the filters, a list that [rawFilter] returns holds
    records that have their name and nested structures, no two of the
    same name, in strictly ascending order of the names. *)
Theorem rawFilter_result_sorted itf filters
    (found : list ec2.InstanceTypeInfo) (t : list event) :
  rawFilter itf filters = (Ok found, t) →
  Forall (λ info, populated (Some info) = true) found ∧
  NoDup (instanceTypeName <$> found) ∧
  StronglySorted nameBefore found.
Proof.
  intros Hraw. split; [| by eapply rawFilter_sorted].
  apply rawFilter_Ok in Hraw as (index & t1 & p & ps & st & _ & _ & Hloop & _ & ->).
  pose proof (callback_Continue_populated _ _ _ _ _ _ Hloop) as Hpop.
  apply callback_Continue in Hloop as (Hlookup & _ & _).
  apply Forall_forall. intros info Hin.
  apply elem_of_collected in Hin as [name Hname]. rewrite Hlookup in Hname.
  destruct (lastNamed name (concat (p :: ps))) as [last |] eqn:Hlast;
    [| unfold noCandidates in Hname; simpl in Hname;
       by rewrite lookup_empty in Hname].
  destruct (isSupportedInLocation index name && accepts filters last); [| done].
  injection Hname as <-. apply lastNamed_name in Hlast as [_ Hin].
  rewrite forallb_forall in Hpop. apply Hpop. by apply list_elem_of_In.
Qed.

(** X8.  The errors of [rawFilter].  An error that [rawFilter] returns is
    the invalid-location error of a location without location type, with
    no request sent; or the wrapped error of an offerings request that
    failed, with no catalog request sent; or the error of a catalog
    request that failed; or the dispatch error of a table entry, of a
    record of the catalog, whose present filter has no comparator for the
    shape of its attribute. *)
Theorem rawFilter_errors itf filters (e : error) (t : list event) :
  rawFilter itf filters = (Err e, t) →
  (e = InvalidLocation (locationOf filters) ∧
   locationTypeOf (locationOf filters) = None ∧ t = []) ∨
  (∃ cause locationType pre,
     e = DescribeOfferingsFailed cause ∧
     locationTypeOf (locationOf filters) = Some locationType ∧
     ec2.instanceTypeOfferings (EC2 itf) locationType (locationOf filters)
     = pagesThen pre (RequestFails cause) ∧
     t = replicate (S (length pre))
           (DescribeInstanceTypeOfferingsRequest locationType locationFilterKey
              (locationOf filters))) ∨
  (∃ pre, ec2.instanceTypes (EC2 itf) = pagesThen pre (RequestFails e)) ∨
  (∃ page info name pairs filterName fPair,
     page ∈ pages_of (ec2.instanceTypes (EC2 itf)) ∧ Some info ∈ page ∧
     ec2.InstanceType info = Some name ∧
     filterToInstanceSpecMappingPairs filters info = Some pairs ∧
     (filterName, fPair) ∈ pairs ∧ mismatched fPair = true ∧
     (e = UnableToProcess filterName name ∨ e = NoFilterHandler filterName name)).
Proof.
  unfold rawFilter.
  destruct (RetrieveInstanceTypesSupportedInLocation itf (locationOf filters))
    as [[index | e0 |] t1] eqn:Hretrieve; [| | done].
  - unfold ec2.DescribeInstanceTypesPages.
    destruct (eachPage DescribeInstanceTypesRequest (ec2.instanceTypes (EC2 itf))
                (instanceTypesCallback itf filters index) noCandidates)
      as [[[st [e1 |]] |] t2] eqn:Hpages; [| | done].
    + intros [= <- <-]. right. right. left.
      apply eachPage_error in Hpages as (pre & Hpre & _). eauto.
    + destruct (innerErr st) as [e1 |] eqn:Herr; [| done].
      intros [= <- <-]. right. right. right.
      destruct (eachPage_stopped _ _ _ _ _ _ _ _ _ Hpages eq_refl Herr)
        as (page & s0 & s1 & Hin & Hstop & Hs1).
      destruct (callback_Stop_source _ _ _ _ _ _ Hstop)
        as (info & name & pairs & fn & fp & e' & Hrec & Hname & Hpairs & Hentry & Hbad & He & Herr').
      assert (e' = e1) as -> by congruence.
      by exists page, info, name, pairs, fn, fp.
  - intros [= <- <-]. revert Hretrieve.
    unfold RetrieveInstanceTypesSupportedInLocation,
      ec2.DescribeInstanceTypeOfferingsPages.
    destruct (String.eqb (locationOf filters) ""); [done |].
    destruct (locationTypeOf (locationOf filters)) as [locationType |] eqn:Htype.
    + destruct (eachPage _ _ offeringsCallback ∅) as [[[m [cause |]] |] t'] eqn:Hpages;
        [| done | done].
      intros [= <- <-]. right. left.
      apply eachPage_error in Hpages as (pre & Hpre & ->).
      by exists cause, locationType, pre.
    + intros [= <- <-]. by left.
Qed.

(** X9.  The code of selector.go does not panic (the helpers it calls
    being taken to return) when every offering of the location has its
    instance type and location and every record of the catalog has its
    name and nested structures: [rawFilter] returns a list or an error,
    and with a maximum that is absent or not negative so do the entry
    points. *)
Theorem well_formed_answers_never_panic itf filters
    (outputFn : list ec2.InstanceTypeInfo → list string) :
  (∀ locationType,
     locationTypeOf (locationOf filters) = Some locationType →
     Forall (λ page, forallb offered page = true)
       (pages_of (ec2.instanceTypeOfferings (EC2 itf) locationType
                    (locationOf filters)))) →
  Forall (λ page, forallb populated page = true)
    (pages_of (ec2.instanceTypes (EC2 itf))) →
  (∀ m, MaxResults filters = Some m → 0 ≤ m) →
  returns (rawFilter itf filters) ∧
  returns (FilterVerbose itf filters) ∧
  returns (FilterWithOutput itf filters outputFn) ∧
  returns (Filter itf filters).
Proof.
  intros Hofferings Hcatalog Hmax.
  assert (Hraw : returns (rawFilter itf filters)).
  { unfold rawFilter.
    destruct (RetrieveInstanceTypesSupportedInLocation itf (locationOf filters))
      as [[index | e0 |] t1] eqn:Hretrieve.
    - unfold ec2.DescribeInstanceTypesPages.
      destruct (eachPage_no_crash DescribeInstanceTypesRequest
                  (ec2.instanceTypes (EC2 itf))
                  (instanceTypesCallback itf filters index) noCandidates)
        as [[st e] Hr].
      { intros page s Hin. apply callback_populated.
        rewrite Forall_forall in Hcatalog. by apply Hcatalog. }
      destruct (eachPage _ _ _ noCandidates) as [r t2]. simpl in Hr. subst r.
      exists (t1 ++ t2). destruct e as [e |]; [right; eauto |].
      destruct (innerErr st); [right; eauto | left; eauto].
    - exists t1. right. eauto.
    - exfalso. revert Hretrieve.
      unfold RetrieveInstanceTypesSupportedInLocation,
        ec2.DescribeInstanceTypeOfferingsPages.
      destruct (String.eqb (locationOf filters) ""); [done |].
      destruct (locationTypeOf (locationOf filters)) as [locationType |]; [| done].
      destruct (eachPage_no_crash
                  (DescribeInstanceTypeOfferingsRequest locationType
                     locationFilterKey (locationOf filters))
                  (ec2.instanceTypeOfferings (EC2 itf) locationType (locationOf filters))
                  offeringsCallback ∅) as [[m e] Hr].
      { intros page s Hin Hcrash.
        specialize (Hofferings locationType eq_refl).
        rewrite Forall_forall in Hofferings.
        destruct (offeringsCallback_offered page s (Hofferings _ Hin)) as [m' Hm'].
        congruence. }
      destruct (eachPage _ _ offeringsCallback ∅) as [r t]. simpl in Hr. subst r.
      by destruct e. }
  assert (Htruncate : ∀ found : list ec2.InstanceTypeInfo,
             ∃ kept, truncateResults itf (MaxResults filters) found = Ok kept).
  { intros found. destruct (MaxResults filters) as [m |] eqn:Hm; [| by eexists].
    specialize (Hmax m eq_refl). unfold truncateResults.
    destruct (Z.ltb_spec (Z.of_nat (length found)) m);
      rewrite slice_to_ok by lia; by eexists. }
  split; [done |].
  unfold Filter, FilterWithOutput, FilterVerbose.
  destruct Hraw as (t & [[found ->] | [e ->]]).
  - destruct (Htruncate found) as [kept ->].
    repeat split; exists t; left; eauto.
  - repeat split; exists t; right; eauto.
Qed.

(** X10.  The requests of [rawFilter] are those of the resolver followed
    by catalog requests: at least one when the resolver returned an index
    (absent or not), none when it failed.  The entry points send the
    requests of [rawFilter] and no other. *)
Theorem rawFilter_requests itf filters
    (outputFn : list ec2.InstanceTypeInfo → list string) :
  ∃ m,
    (rawFilter itf filters).2
    = (RetrieveInstanceTypesSupportedInLocation itf (locationOf filters)).2
      ++ replicate m DescribeInstanceTypesRequest ∧
    (m = 0%nat ↔
     ∀ index, (RetrieveInstanceTypesSupportedInLocation itf (locationOf filters)).1
              ≠ Ok index) ∧
    (FilterVerbose itf filters).2 = (rawFilter itf filters).2 ∧
    (FilterWithOutput itf filters outputFn).2 = (rawFilter itf filters).2 ∧
    (Filter itf filters).2 = (rawFilter itf filters).2.
Proof.
  assert (Hentry : (FilterVerbose itf filters).2 = (rawFilter itf filters).2 ∧
                   (FilterWithOutput itf filters outputFn).2 = (rawFilter itf filters).2 ∧
                   (Filter itf filters).2 = (rawFilter itf filters).2).
  { unfold Filter, FilterWithOutput, FilterVerbose.
    destruct (rawFilter itf filters) as [[found | e |] t]; simpl; [| done | done].
    by destruct (truncateResults itf (MaxResults filters) found). }
  unfold rawFilter in *.
  destruct (RetrieveInstanceTypesSupportedInLocation itf (locationOf filters))
    as [[index | e0 |] t1] eqn:Hretrieve; simpl.
  - unfold ec2.DescribeInstanceTypesPages in *.
    destruct (eachPage_trace DescribeInstanceTypesRequest (ec2.instanceTypes (EC2 itf))
                (instanceTypesCallback itf filters index) noCandidates) as [n Hn].
    destruct (eachPage _ _ _ noCandidates) as [r t2]. simpl in Hn. subst t2.
    exists (S n). split; [| split; [| exact Hentry]].
    + destruct r as [[st [e |]] |]; [done | | done]. by destruct (innerErr st).
    + split; [done |]. intros Hnot. by destruct (Hnot index).
  - exists 0%nat. split; [by rewrite app_nil_r |]. split; [| exact Hentry].
    split; [done | done].
  - exists 0%nat. split; [by rewrite app_nil_r |]. split; [| exact Hentry].
    split; [done | done].
Qed.


(** ** How specifications compose *)

Lemma servePages_inj {P : Type} (p q : P) (ps qs : list P) :
  servePages p ps = servePages q qs → p = q ∧ ps = qs.
Proof.
  revert p q qs. induction ps as [| p' ps IH]; intros p q [| q' qs]; simpl;
    intros [=]; subst; [done |].
  destruct (IH _ _ _ H1) as [-> ->]. done.
Qed.

Lemma Retrieve_Ok_None (itf : Selector) (zone : string) (t : list event) :
  RetrieveInstanceTypesSupportedInLocation itf zone = (Ok None, t) → zone = "".
Proof.
  unfold RetrieveInstanceTypesSupportedInLocation.
  destruct (String.eqb_spec zone ""); [done |].
  destruct (locationTypeOf zone); [| done].
  destruct (ec2.DescribeInstanceTypeOfferingsPages _ _ _ _ _ _) as [[[m [e |]] |] t'];
    done.
Qed.

Lemma eachPage_ext {P St : Type} (req : event) (pages : pager P)
    (fn1 fn2 : P → St → step St) (s : St) :
  (∀ p s, fn1 p s = fn2 p s) →
  eachPage req pages fn1 s = eachPage req pages fn2 s.
Proof.
  intros Hfn. revert s. induction pages as [e | p | p rest IH]; intros s; simpl.
  - done.
  - by rewrite Hfn.
  - rewrite Hfn. destruct (fn2 p s); [| done | done]. by rewrite IH.
Qed.

(** The page loop reads the specification through the table only. *)
Lemma callback_ext itf filters1 filters2 index records st :
  (∀ info, filterToInstanceSpecMappingPairs filters1 info
           = filterToInstanceSpecMappingPairs filters2 info) →
  instanceTypesCallback itf filters1 index records st
  = instanceTypesCallback itf filters2 index records st.
Proof.
  intros Hpairs. revert st. induction records as [| p records IH]; intros st;
    simpl; [done |].
  destruct p as [info |]; simpl; [| done].
  destruct (ec2.InstanceType info) as [name |]; simpl; [| done].
  rewrite Hpairs.
  destruct (filterToInstanceSpecMappingPairs filters2 info) as [pairs |]; simpl; [| done].
  destruct (executeFilters itf (mapRange (ranges st) pairs) name) as [b [e |]]; [done |].
  apply IH.
Qed.

Lemma rawFilter_ext itf filters1 filters2 :
  locationOf filters1 = locationOf filters2 →
  (∀ info, filterToInstanceSpecMappingPairs filters1 info
           = filterToInstanceSpecMappingPairs filters2 info) →
  rawFilter itf filters1 = rawFilter itf filters2.
Proof.
  intros Hlocation Hpairs. unfold rawFilter, ec2.DescribeInstanceTypesPages.
  rewrite Hlocation.
  destruct (RetrieveInstanceTypesSupportedInLocation itf (locationOf filters2))
    as [[index | e |] t1]; [| done | done].
  by rewrite (eachPage_ext _ _ (instanceTypesCallback itf filters1 index)
                (instanceTypesCallback itf filters2 index))
    by (intros; by apply callback_ext).
Qed.

(** X11.  [MaxResults] only truncates: [rawFilter] does not read it, and
    for a maximum [n] that is not negative [FilterVerbose] returns the
    first [n] records of what it returns without a maximum, after the
    same requests. *)
Theorem MaxResults_only_truncates itf filters (n : Z)
    (found : list ec2.InstanceTypeInfo) (t : list event) :
  0 ≤ n →
  FilterVerbose itf (withMaxResults None filters) = (Ok found, t) →
  rawFilter itf (withMaxResults (Some n) filters) = rawFilter itf filters ∧
  FilterVerbose itf (withMaxResults (Some n) filters)
  = (Ok (take (Z.to_nat n) found), t) ∧
  (length (take (Z.to_nat n) found) ≤ Z.to_nat n)%nat.
Proof.
  intros Hn Hverbose.
  assert (Hraw : ∀ m, rawFilter itf (withMaxResults m filters) = rawFilter itf filters)
    by (intros m; by apply rawFilter_ext).
  split; [apply Hraw |]. split; [| rewrite length_take; lia].
  revert Hverbose. unfold FilterVerbose. rewrite !Hraw.
  destruct (rawFilter itf filters) as [[all | e |] t']; simpl; [| done | done].
  intros [= -> ->]. f_equal.
  unfold truncateResults.
  destruct (Z.ltb_spec (Z.of_nat (length found)) n).
  - rewrite slice_to_ok by lia. rewrite Nat2Z.id, firstn_all.
    f_equal. symmetry. apply take_ge. lia.
  - by rewrite slice_to_ok by lia.
Qed.

(** X12.  When an availability zone is given the region is not read:
    every region, or none, gives the same results and the same requests.
    (An availability zone that is the empty string thus removes the
    restriction to a region.) *)
Theorem AvailabilityZone_overrides_Region itf filters (az : string)
    (region : option string)
    (outputFn : list ec2.InstanceTypeInfo → list string) :
  AvailabilityZone filters = Some az →
  locationOf (withRegion region filters) = az ∧
  rawFilter itf (withRegion region filters) = rawFilter itf filters ∧
  FilterVerbose itf (withRegion region filters) = FilterVerbose itf filters ∧
  FilterWithOutput itf (withRegion region filters) outputFn
  = FilterWithOutput itf filters outputFn.
Proof.
  intros Haz.
  assert (Hlocation : locationOf (withRegion region filters) = locationOf filters)
    by (unfold locationOf; simpl; by rewrite Haz).
  assert (Hraw : rawFilter itf (withRegion region filters) = rawFilter itf filters)
    by (by apply rawFilter_ext).
  split; [unfold locationOf; simpl; by rewrite Haz |].
  split; [done |].
  unfold FilterWithOutput, FilterVerbose. by rewrite Hraw.
Qed.

(** X13.  Removing filters from a specification, the location kept, can
    only add records to the result: when both specifications give a list,
    every record of the list for the stricter one is in the list for the
    other, and the requests are the same. *)
Theorem fewer_filters_more_results itf filters' filters
    (found' found : list ec2.InstanceTypeInfo) (t' t : list event) :
  relaxes filters' filters →
  locationOf filters' = locationOf filters →
  rawFilter itf filters = (Ok found, t) →
  rawFilter itf filters' = (Ok found', t') →
  (∀ info, info ∈ found → info ∈ found') ∧ t' = t.
Proof.
  intros Hrelax Hlocation Hraw Hraw'.
  apply rawFilter_Ok in Hraw
    as (index & t1 & p & ps & st & Hretrieve & Hserve & Hloop & -> & ->).
  apply rawFilter_Ok in Hraw'
    as (index' & t1' & p' & ps' & st' & Hretrieve' & Hserve' & Hloop' & -> & ->).
  rewrite Hlocation, Hretrieve in Hretrieve'. injection Hretrieve' as <- <-.
  rewrite Hserve in Hserve'. apply servePages_inj in Hserve' as [<- <-].
  split; [| done].
  apply callback_Continue in Hloop as (Hlookup & _ & _).
  apply callback_Continue in Hloop' as (Hlookup' & _ & _).
  intros info. rewrite !elem_of_collected.
  intros [name Hname]. exists name. rewrite Hlookup'. rewrite Hlookup in Hname.
  destruct (lastNamed name (concat (p :: ps))) as [last |]; [| done].
  destruct (isSupportedInLocation index name); [| done].
  destruct (accepts filters last) eqn:Haccepts; [| done].
  by rewrite (accepts_relaxed _ _ _ Hrelax Haccepts).
Qed.

(** X14.  With a location that is not empty, a list that [rawFilter]
    returns holds a record iff it is the last record of its name in the
    catalog, its name has an offering in the answer of the availability
    provider for that location (and its location type), and the filters
    accept it. *)
Theorem located_results_are_offered itf filters
    (found : list ec2.InstanceTypeInfo) (t : list event) :
  String.eqb (locationOf filters) "" = false →
  rawFilter itf filters = (Ok found, t) →
  ∃ locationType o os p ps,
    locationTypeOf (locationOf filters) = Some locationType ∧
    ec2.instanceTypeOfferings (EC2 itf) locationType (locationOf filters)
    = servePages o os ∧
    ec2.instanceTypes (EC2 itf) = servePages p ps ∧
    ∀ info,
      info ∈ found ↔
      ∃ name,
        ec2.InstanceType info = Some name ∧
        lastNamed name (concat (p :: ps)) = Some info ∧
        is_Some (lastOffered name (concat (o :: os))) ∧
        accepts filters info = true.
Proof.
  intros Hne Hraw.
  apply rawFilter_Ok in Hraw
    as (index & t1 & p & ps & st & Hretrieve & Hserve & Hloop & _ & ->).
  destruct index as [offerings |];
    [| apply Retrieve_Ok_None in Hretrieve; rewrite Hretrieve in Hne; done].
  apply Retrieve_Ok_Some in Hretrieve as (locationType & o & os & Htype & Hoff & Hindex).
  exists locationType, o, os, p, ps. repeat (split; [done |]).
  apply callback_Continue in Hloop as (Hlookup & _ & _).
  assert (Hcheck : ∀ name, isSupportedInLocation (Some offerings) name
                           = bool_decide (is_Some (lastOffered name (concat (o :: os))))).
  { intros name. unfold isSupportedInLocation. rewrite Hindex.
    destruct (lastOffered name _).
    - by rewrite bool_decide_eq_true_2 by eauto.
    - rewrite bool_decide_eq_false_2; [done |]. by intros [? ?]. }
  intros info. rewrite elem_of_collected. split.
  - intros [name Hname]. exists name. rewrite Hlookup, Hcheck in Hname.
    destruct (lastNamed name (concat (p :: ps))) as [last |] eqn:Hlast;
      [| unfold noCandidates in Hname; simpl in Hname;
         by rewrite lookup_empty in Hname].
    destruct (bool_decide_reflect (is_Some (lastOffered name (concat (o :: os)))));
      [| done].
    destruct (accepts filters last) eqn:Haccepts; [| done].
    simpl in Hname. injection Hname as <-.
    by destruct (lastNamed_name _ _ _ Hlast).
  - intros (name & _ & Hlast & Hoffered & Haccepts). exists name.
    rewrite Hlookup, Hlast, Hcheck, Haccepts.
    by rewrite bool_decide_eq_true_2.
Qed.

End aggregator_outcomes.

(* ================================================================== *)
(** * Instances of the theorems, and the inputs that refute C8 and C9 *)
(* ================================================================== *)

#[local] Existing Instance Reference.helpers.
#[local] Existing Instance Reference.sourceOrder.

(** In the sample catalog t3.micro is rejected on its vCPUs before its
    network performance is looked at; m5.xlarge, the next record of the
    page, reaches the mistyped pair, and the second page is not asked for. *)
Lemma dispatch_error_aborts_witness :
  failsWith Reference.sample Reference.mistyped Reference.simpleOutput
    (UnableToProcess "networkPerformance" "m5.xlarge")
    [DescribeInstanceTypesRequest].
Proof.
  refine (proj2 (dispatch_error_aborts Reference.sample Reference.mistyped
           Reference.simpleOutput
           None [] [] [Some Reference.t3_micro] [] Reference.m5_xlarge
           (Some (LastPage [Some Reference.m5_large]))
           {| instanceTypeCandidates := ∅; innerErr := None; ranges := 1 |}
           "m5.xlarge"
           (default [] (filterToInstanceSpecMappingPairs Reference.mistyped
                          Reference.m5_xlarge))
           false (UnableToProcess "networkPerformance" "m5.xlarge")
           _ _ _ _ _ _));
    vm_compute; reflexivity.
Defined.

Lemma unfiltered_returns_sorted_catalog_witness :
  ∃ found,
    FilterVerbose Reference.sample Reference.noFilters
    = (Ok found, [DescribeInstanceTypesRequest; DescribeInstanceTypesRequest]) ∧
    FilterWithOutput Reference.sample Reference.noFilters Reference.simpleOutput
    = (Ok (Reference.simpleOutput found),
       [DescribeInstanceTypesRequest; DescribeInstanceTypesRequest]) ∧
    Some <$> found
    ≡ₚ [Some Reference.t3_micro; Some Reference.m5_xlarge; Some Reference.m5_large] ∧
    StronglySorted nameBefore found.
Proof.
  apply (unfiltered_returns_sorted_catalog Reference.sample Reference.noFilters
           Reference.simpleOutput
           [Some Reference.t3_micro; Some Reference.m5_xlarge]
           [[Some Reference.m5_large]]).
  - vm_compute; reflexivity.
  - reflexivity.
  - vm_compute; reflexivity.
  - apply (bool_decide_unpack _). vm_compute. exact I.
Defined.

Lemma paging_errors_abort_witness :
  failsWith Reference.failingOfferings
    (Reference.withLocation (Some "us-east-1a") None Reference.noFilters)
    Reference.simpleOutput
    (DescribeOfferingsFailed (ServiceError "RequestLimitExceeded"))
    [DescribeInstanceTypeOfferingsRequest "availability-zone" "location" "us-east-1a"] ∧
  failsWith Reference.failingCatalog Reference.noFilters Reference.simpleOutput
    (ServiceError "RequestLimitExceeded") [DescribeInstanceTypesRequest].
Proof.
  split.
  - apply (proj1 (paging_errors_abort Reference.failingOfferings
                    (Reference.withLocation (Some "us-east-1a") None Reference.noFilters)
                    Reference.simpleOutput (ServiceError "RequestLimitExceeded"))
             "availability-zone" ∅);
      vm_compute; reflexivity.
  - apply (proj2 (paging_errors_abort Reference.failingCatalog Reference.noFilters
                    Reference.simpleOutput (ServiceError "RequestLimitExceeded"))
             None [] [DescribeInstanceTypesRequest]
             {| instanceTypeCandidates := ∅; innerErr := None; ranges := 0 |});
      vm_compute; reflexivity.
Defined.

(** C8, as stated, fails: the error of the catalog provider comes back as
    the provider returned it, with nothing around it that names the call,
    while the same error of the availability provider comes back wrapped. *)
Lemma catalog_error_not_wrapped :
  rawFilter Reference.failingCatalog Reference.noFilters
  = (Err (ServiceError "RequestLimitExceeded"), [DescribeInstanceTypesRequest]) ∧
  rawFilter Reference.failingOfferings
    (Reference.withLocation (Some "us-east-1a") None Reference.noFilters)
  = (Err (DescribeOfferingsFailed (ServiceError "RequestLimitExceeded")),
     [DescribeInstanceTypeOfferingsRequest "availability-zone" "location" "us-east-1a"]).
Proof. vm_compute. split; reflexivity. Qed.

Lemma last_record_of_a_name_decides_witness :
  ∃ index t1 p ps,
    RetrieveInstanceTypesSupportedInLocation Reference.repeated
      (locationOf Reference.burstableOnly) = (Ok index, t1) ∧
    ec2.instanceTypes (EC2 Reference.repeated) = servePages p ps ∧
    ∀ info,
      info ∈ [Reference.record "t3.micro" 2 1024 true] ↔
      ∃ name,
        ec2.InstanceType info = Some name ∧
        lastNamed name (concat (p :: ps)) = Some info ∧
        isSupportedInLocation index name = true ∧
        accepts Reference.burstableOnly info = true.
Proof.
  apply (last_record_of_a_name_decides Reference.repeated Reference.burstableOnly
           [Reference.record "t3.micro" 2 1024 true]
           [DescribeInstanceTypesRequest; DescribeInstanceTypesRequest]).
  vm_compute; reflexivity.
Defined.

(** C9, as stated, fails: with the burstable filter the name t3.micro is
    removed on the first page (its record there is not burstable), and the
    record of the same name on the second page is inserted and returned. *)
Lemma removed_name_is_inserted_again :
  (∃ st,
     instanceTypesCallback Reference.repeated Reference.burstableOnly None
       [Some (Reference.record "t3.micro" 2 1024 false)] noCandidates = Continue st ∧
     instanceTypeCandidates st !! "t3.micro" = None) ∧
  rawFilter Reference.repeated Reference.burstableOnly
  = (Ok [Reference.record "t3.micro" 2 1024 true],
     [DescribeInstanceTypesRequest; DescribeInstanceTypesRequest]).
Proof.
  split.
  - eexists. split; [vm_compute; reflexivity | vm_compute; reflexivity].
  - vm_compute; reflexivity.
Qed.

(** ** Instances of the further properties *)

Lemma region_prefix_closed_witness :
  MatchString regionNameRegex "us-east-1-and-more" = true ∧
  ∃ locationType, locationTypeOf "us-east-1-and-more" = Some locationType.
Proof.
  apply (region_prefix_closed "us-east-1" "-and-more").
  vm_compute; reflexivity.
Defined.

Lemma well_typed_table_never_errors_witness :
  let entries :=
    default [] (filterToInstanceSpecMappingPairs
                  (Reference.setFilter vcpusRange (Reference.range 4 4)
                     Reference.noFilters)
                  Reference.t3_micro) in
  executeFilters Reference.sample (reverse entries) "t3.micro"
  = (allSatisfied entries, None).
Proof.
  intros entries.
  apply (well_typed_table_never_errors Reference.sample entries (reverse entries)).
  - apply (bool_decide_unpack _). vm_compute. exact I.
  - apply reverse_Permutation.
Defined.

Lemma Retrieve_builds_index_witness :
  ∃ index,
    RetrieveInstanceTypesSupportedInLocation Reference.sample "use1-az1"
    = (Ok (Some index),
       [DescribeInstanceTypeOfferingsRequest "availability-zone-id" "location" "use1-az1"]) ∧
    (∀ name,
       index !! name
       = lastOffered name
           (concat [[Some {| ec2.Offering.InstanceType := Some "m5.large";
                             ec2.Offering.Location := Some "use1-az1" |}]])) ∧
    (∀ name,
       isSupportedInLocation (Some index) name = true ↔
       is_Some (lastOffered name
                  (concat [[Some {| ec2.Offering.InstanceType := Some "m5.large";
                                    ec2.Offering.Location := Some "use1-az1" |}]]))).
Proof.
  apply (Retrieve_builds_index Reference.sample "use1-az1" "availability-zone-id"
           [Some {| ec2.Offering.InstanceType := Some "m5.large";
                    ec2.Offering.Location := Some "use1-az1" |}] []);
    vm_compute; reflexivity.
Defined.

Lemma rawFilter_result_sorted_witness :
  Forall (λ info, populated (Some info) = true)
    [Reference.m5_large; Reference.m5_xlarge; Reference.t3_micro] ∧
  NoDup (instanceTypeName <$>
           [Reference.m5_large; Reference.m5_xlarge; Reference.t3_micro]) ∧
  StronglySorted nameBefore
    [Reference.m5_large; Reference.m5_xlarge; Reference.t3_micro].
Proof.
  apply (rawFilter_result_sorted Reference.sample Reference.noFilters
           [Reference.m5_large; Reference.m5_xlarge; Reference.t3_micro]
           [DescribeInstanceTypesRequest; DescribeInstanceTypesRequest]).
  vm_compute; reflexivity.
Defined.

(** The error of the mistyped specification is of the fourth kind. *)
Lemma rawFilter_errors_witness :
  let e := UnableToProcess "networkPerformance" "m5.xlarge" in
  let t := [DescribeInstanceTypesRequest] in
  let filters := Reference.mistyped in
  let itf := Reference.sample in
  (e = InvalidLocation (locationOf filters) ∧
   locationTypeOf (locationOf filters) = None ∧ t = []) ∨
  (∃ cause locationType pre,
     e = DescribeOfferingsFailed cause ∧
     locationTypeOf (locationOf filters) = Some locationType ∧
     ec2.instanceTypeOfferings (EC2 itf) locationType (locationOf filters)
     = pagesThen pre (RequestFails cause) ∧
     t = replicate (S (length pre))
           (DescribeInstanceTypeOfferingsRequest locationType locationFilterKey
              (locationOf filters))) ∨
  (∃ pre, ec2.instanceTypes (EC2 itf) = pagesThen pre (RequestFails e)) ∨
  (∃ page info name pairs filterName fPair,
     page ∈ pages_of (ec2.instanceTypes (EC2 itf)) ∧ Some info ∈ page ∧
     ec2.InstanceType info = Some name ∧
     filterToInstanceSpecMappingPairs filters info = Some pairs ∧
     (filterName, fPair) ∈ pairs ∧ mismatched fPair = true ∧
     (e = UnableToProcess filterName name ∨ e = NoFilterHandler filterName name)).
Proof.
  intros e t filters itf.
  apply (rawFilter_errors itf filters e t).
  vm_compute; reflexivity.
Defined.

Lemma well_formed_answers_never_panic_witness :
  returns (rawFilter Reference.sample Reference.inZone) ∧
  returns (FilterVerbose Reference.sample Reference.inZone) ∧
  returns (FilterWithOutput Reference.sample Reference.inZone Reference.simpleOutput) ∧
  returns (Filter Reference.sample Reference.inZone).
Proof.
  apply (well_formed_answers_never_panic Reference.sample Reference.inZone
           Reference.simpleOutput).
  - intros locationType Htype. vm_compute in Htype. injection Htype as <-.
    apply (bool_decide_unpack _). vm_compute. exact I.
  - apply (bool_decide_unpack _). vm_compute. exact I.
  - intros m Hm. vm_compute in Hm. discriminate Hm.
Defined.

Lemma MaxResults_only_truncates_witness :
  rawFilter Reference.sample (withMaxResults (Some 1) Reference.noFilters)
  = rawFilter Reference.sample Reference.noFilters ∧
  FilterVerbose Reference.sample (withMaxResults (Some 1) Reference.noFilters)
  = (Ok (take (Z.to_nat 1)
           [Reference.m5_large; Reference.m5_xlarge; Reference.t3_micro]),
     [DescribeInstanceTypesRequest; DescribeInstanceTypesRequest]) ∧
  (length (take (Z.to_nat 1)
             [Reference.m5_large; Reference.m5_xlarge; Reference.t3_micro])
   ≤ Z.to_nat 1)%nat.
Proof.
  apply (MaxResults_only_truncates Reference.sample Reference.noFilters 1
           [Reference.m5_large; Reference.m5_xlarge; Reference.t3_micro]
           [DescribeInstanceTypesRequest; DescribeInstanceTypesRequest]).
  - lia.
  - vm_compute; reflexivity.
Defined.

Lemma AvailabilityZone_overrides_Region_witness :
  locationOf (withRegion (Some "us-east-1") Reference.inZone) = "use1-az1" ∧
  rawFilter Reference.sample (withRegion (Some "us-east-1") Reference.inZone)
  = rawFilter Reference.sample Reference.inZone ∧
  FilterVerbose Reference.sample (withRegion (Some "us-east-1") Reference.inZone)
  = FilterVerbose Reference.sample Reference.inZone ∧
  FilterWithOutput Reference.sample (withRegion (Some "us-east-1") Reference.inZone)
    Reference.simpleOutput
  = FilterWithOutput Reference.sample Reference.inZone Reference.simpleOutput.
Proof.
  apply (AvailabilityZone_overrides_Region Reference.sample Reference.inZone
           "use1-az1" (Some "us-east-1") Reference.simpleOutput).
  reflexivity.
Defined.

Lemma fewer_filters_more_results_witness :
  (∀ info, info ∈ [Reference.t3_micro] →
           info ∈ [Reference.m5_large; Reference.m5_xlarge; Reference.t3_micro]) ∧
  [DescribeInstanceTypesRequest; DescribeInstanceTypesRequest]
  = [DescribeInstanceTypesRequest; DescribeInstanceTypesRequest].
Proof.
  apply (fewer_filters_more_results Reference.sample
           Reference.noFilters Reference.burstableOnly).
  - unfold relaxes, filterFields. simpl.
    repeat (constructor; [first [by left | by right] |]). constructor.
  - reflexivity.
  - vm_compute; reflexivity.
  - vm_compute; reflexivity.
Defined.

Lemma located_results_are_offered_witness :
  ∃ locationType o os p ps,
    locationTypeOf (locationOf Reference.inZone) = Some locationType ∧
    ec2.instanceTypeOfferings (EC2 Reference.sample) locationType
      (locationOf Reference.inZone) = servePages o os ∧
    ec2.instanceTypes (EC2 Reference.sample) = servePages p ps ∧
    ∀ info,
      info ∈ [Reference.m5_large] ↔
      ∃ name,
        ec2.InstanceType info = Some name ∧
        lastNamed name (concat (p :: ps)) = Some info ∧
        is_Some (lastOffered name (concat (o :: os))) ∧
        accepts Reference.inZone info = true.
Proof.
  apply (located_results_are_offered Reference.sample Reference.inZone
           [Reference.m5_large]
           [DescribeInstanceTypeOfferingsRequest "availability-zone-id" "location" "use1-az1";
            DescribeInstanceTypesRequest; DescribeInstanceTypesRequest]);
    vm_compute; reflexivity.
Defined.

(* ================================================================== *)
(** * The example scenarios of the specification *)
(* ================================================================== *)

Example regex_samples :
  MatchString zoneIDRegex "use1-az1" = true ∧
  MatchString zoneNameRegex "us-east-1a" = true ∧
  MatchString regionNameRegex "us-east-1" = true ∧
  MatchString regionNameRegex "ap-southeast-2" = true ∧
  MatchString regionNameRegex "us-gov-west-1" = true ∧
  MatchString zoneNameRegex "us-east-1" = false ∧
  MatchString zoneIDRegex "us-east-1" = false ∧
  MatchString regionNameRegex "not-a-zone" = false ∧
  MatchString zoneNameRegex "not-a-zone" = false ∧
  MatchString zoneIDRegex "not-a-zone" = false.
Proof. vm_compute. repeat split. Qed.

Section scenarios.
Import Reference.
Local Existing Instance helpers.
Local Existing Instance sourceOrder.

Example scenario_1 :
  Filter sample noFilters
  = (Ok ["m5.large"; "m5.xlarge"; "t3.micro"],
     [DescribeInstanceTypesRequest; DescribeInstanceTypesRequest]).
Proof. vm_compute. reflexivity. Qed.

Example scenario_2 :
  (Filter sample (setFilter vcpusRange (range 2 2) noFilters)).1 = Ok ["m5.large"; "t3.micro"].
Proof. vm_compute. reflexivity. Qed.

Example scenario_3 :
  (Filter sample (setFilter burstable (FBool (Some true)) noFilters)).1 = Ok ["t3.micro"].
Proof. vm_compute. reflexivity. Qed.

Example scenario_4 :
  (Filter sample (withLocation None (Some 1) (setFilter vcpusRange (range 2 2) noFilters))).1
  = Ok ["m5.large"].
Proof. vm_compute. reflexivity. Qed.

Example scenario_5 :
  Filter sample (withLocation (Some "use1-az1") None noFilters)
  = (Ok ["m5.large"],
     [DescribeInstanceTypeOfferingsRequest "availability-zone-id" "location" "use1-az1";
      DescribeInstanceTypesRequest; DescribeInstanceTypesRequest]).
Proof. vm_compute. reflexivity. Qed.

Example scenario_6 :
  Filter sample (withLocation (Some "not-a-zone") None noFilters)
  = (Err (InvalidLocation "not-a-zone"), []).
Proof. vm_compute. reflexivity. Qed.

(** The order of iteration decides between a rejection and an error: with
    four vCPUs wanted and a mistyped network filter, t3.micro is rejected
    when its vCPUs are compared first, and ends in an error when its
    network performance is looked at first. *)
Example iteration_order_matters :
  let pairs := default [] (filterToInstanceSpecMappingPairs mistyped t3_micro) in
  executeFilters sample (@mapRange sourceOrder _ 0%nat pairs) "t3.micro"
  = (false, None) ∧
  executeFilters sample (@mapRange reverseOrder _ 0%nat pairs) "t3.micro"
  = (false, Some (UnableToProcess "networkPerformance" "t3.micro")).
Proof. vm_compute. split; reflexivity. Qed.

End scenarios.
